(** * goletan/core: the service watcher, the shutdown sequence, the program

    A shallow embedding of [internal/core] (the [Core] type with [NewCore],
    [Shutdown], [startServiceWatcher] and the three event handlers) and of
    [cmd/core/main.go].

    The collaborators of [Core] (the logger, the services provider, the
    resilience provider) live in other packages.  Every call the code makes
    on one of them is recorded, with its result, in a trace; what a call
    returns is decided by an environment [Env] of oracles that may depend on
    everything that happened before.  The theorems quantify over all
    environments. *)

From Stdlib Require Import String List ZArith Bool Lia.
From stdpp Require Import gmap strings list fin_maps.
Import ListNotations.
Local Open Scope string_scope.
Local Open Scope list_scope.

(** ** Data *)

(** A Go [error] value, identified by its message. *)
Definition error := string.

(** Modelled from the spec: [serTypes.ServiceEndpoint] is declared in the
    services library; the spec gives it as a name/address/namespace tuple.
    The code here reads [Name] and [Address] only. *)
Record ServiceEndpoint := {
  Name : string;
  Address : string;
  Namespace : string
}.

(** The event received from the watch channel: [event.Type] is a string,
    [event.Service] the endpoint. *)
Record Event := {
  EventType : string;
  EventService : ServiceEndpoint
}.

(** The handle [CreateService] returns.  The code calls [Name()],
    [Initialize()] and [Start()] on it; [ServiceId] tells two handles with
    the same name apart. *)
Record Service := {
  ServiceName : string;
  ServiceId : nat
}.

(** [zap.String(key, val)] and [zap.Error(err)]. *)
Inductive Field :=
| zapString (key val : string)
| zapError (err : error).

Inductive Level := InfoLevel | WarnLevel | ErrorLevel | FatalLevel.

(** One entry per call on a collaborator, with what the call returned. *)
Inductive Call :=
| Log (lvl : Level) (msg : string) (fields : list Field)
| CallWatch (ns : string) (r : option error)
| CallCreateService (e : ServiceEndpoint) (r : error + Service)
| CallRegister (s : Service) (r : option error)
| CallInitialize (s : Service) (r : option error)
| CallStart (s : Service) (r : option error)
| CallStopAll (r : option error)
| CallResilienceShutdown (r : option error).

(** The state the code acts on: the service map kept by [c.Services] and
    the trace of calls made so far. *)
Record World := {
  services : gmap string Service;
  trace : list Call
}.

(** What [Logger.Fatal] does after it has written the entry.  The logger
    type is declared in the observability library: zap's logger ends the
    process with [os.Exit(1)]; a logger whose [Fatal] comes back lets the
    caller go on. *)
Inductive FatalAction := WriteThenFatal | WriteThenReturn.

(** The collaborators' answers.  Each oracle sees the whole [World] at the
    time of the call, so an answer may depend on all earlier calls. *)
Record Env := {
  watchResult : World -> string -> option error;
  createServiceResult : World -> ServiceEndpoint -> error + Service;
  registerResult : World -> Service -> option error;
  initializeResult : World -> Service -> option error;
  startResult : World -> Service -> option error;
  stopAllResult : World -> option error;
  resilienceShutdownResult : World -> option error;
  fatalAction : FatalAction
}.

(** ** A state monad over [World] *)

Definition M (A : Type) : Type := World -> A * World.

Definition ret {A} (a : A) : M A := fun w => (a, w).

Definition bind {A B} (m : M A) (k : A -> M B) : M B :=
  fun w => let (a, w1) := m w in k a w1.

Notation "x <- m ;; k" := (bind m (fun x => k))
  (at level 100, m at next level, right associativity).
Notation "m ;;; k" := (bind m (fun _ => k))
  (at level 100, right associativity).

Definition emit (c : Call) : M unit :=
  fun w => (tt, {| services := services w; trace := trace w ++ [c] |}).

(** A call that changes nothing but the trace. *)
Definition call {A} (answer : World -> A) (entry : A -> Call) : M A :=
  fun w => let r := answer w in
           (r, {| services := services w; trace := trace w ++ [entry r] |}).

Section Core.

Variable env : Env.

(** *** The logger *)

Definition Logger_Info (msg : string) (fields : list Field) : M unit :=
  emit (Log InfoLevel msg fields).
Definition Logger_Warn (msg : string) (fields : list Field) : M unit :=
  emit (Log WarnLevel msg fields).
Definition Logger_Error (msg : string) (fields : list Field) : M unit :=
  emit (Log ErrorLevel msg fields).

(** [Logger.Fatal]: writes the entry; [Some code] when the process ends
    there, [None] when the call comes back. *)
Definition Logger_Fatal (msg : string) (fields : list Field) : M (option Z) :=
  emit (Log FatalLevel msg fields) ;;;
  ret (match fatalAction env with
       | WriteThenFatal => Some 1%Z
       | WriteThenReturn => None
       end).

(** *** The services provider and the service handle *)

Definition Services_Watch (ns : string) : M (option error) :=
  call (fun w => watchResult env w ns) (CallWatch ns).

Definition Services_CreateService (e : ServiceEndpoint) : M (error + Service) :=
  call (fun w => createServiceResult env w e) (CallCreateService e).

(** Modelled from the spec: [Register] is implemented in the services
    library.  The spec has the service map go from service name to managed
    service and a service owned by it from the moment [Register] succeeds:
    a successful call stores the service under its name, a failed call
    leaves the map as it is. *)
Definition Services_Register (s : Service) : M (option error) :=
  fun w =>
    let r := registerResult env w s in
    (r, {| services := match r with
                       | None => <[ServiceName s := s]> (services w)
                       | Some _ => services w
                       end;
           trace := trace w ++ [CallRegister s r] |}).

Definition Services_StopAll : M (option error) :=
  call (stopAllResult env) CallStopAll.

Definition Service_Initialize (s : Service) : M (option error) :=
  call (fun w => initializeResult env w s) (CallInitialize s).

Definition Service_Start (s : Service) : M (option error) :=
  call (fun w => startResult env w s) (CallStart s).

Definition Resilience_Shutdown : M (option error) :=
  call (resilienceShutdownResult env) CallResilienceShutdown.

(** *** [Core.Shutdown] *)

Definition Shutdown : M (option error) :=
  Logger_Info "Shutting down Services..." [] ;;;
  r <- Services_StopAll ;;
  match r with
  | Some err => Logger_Error "Failed to stop services" [zapError err]
  | None => ret tt
  end ;;;
  Logger_Info "Shutting down Resilience..." [] ;;;
  r <- Resilience_Shutdown ;;
  match r with
  | Some err =>
      Logger_Error "Failed to shut down resilience" [zapError err] ;;;
      ret (Some err)
  | None =>
      Logger_Info "Core shut down successfully" [] ;;;
      ret None
  end.

(** *** The event handlers *)

Definition handleServiceAdded (endpoint : ServiceEndpoint) : M unit :=
  Logger_Info "Adding service"
    [zapString "name" (Name endpoint); zapString "address" (Address endpoint)] ;;;
  r <- Services_CreateService endpoint ;;
  match r with
  | inl err =>
      Logger_Error "Failed to create service"
        [zapString "name" (Name endpoint); zapError err]
  | inr service =>
      r <- Services_Register service ;;
      match r with
      | Some err =>
          Logger_Error "Failed to register service"
            [zapString "name" (ServiceName service); zapError err]
      | None =>
          r <- Service_Initialize service ;;
          match r with
          | Some err =>
              Logger_Error "Failed to initialize service"
                [zapString "name" (ServiceName service); zapError err]
          | None =>
              r <- Service_Start service ;;
              match r with
              | Some err =>
                  Logger_Error "Failed to start service"
                    [zapString "name" (ServiceName service); zapError err]
              | None => ret tt
              end
          end
      end
  end.

Definition handleServiceDeleted (endpoint : ServiceEndpoint) : M unit :=
  Logger_Info "Removing service"
    [zapString "name" (Name endpoint); zapString "address" (Address endpoint)].

Definition handleServiceModified (endpoint : ServiceEndpoint) : M unit :=
  Logger_Info "Modifying service"
    [zapString "name" (Name endpoint); zapString "address" (Address endpoint)].

(** The [switch event.Type] of the watch loop: a string switch without a
    default case. *)
Definition dispatch (event : Event) : M unit :=
  if String.eqb (EventType event) "ADDED" then
    handleServiceAdded (EventService event)
  else if String.eqb (EventType event) "DELETED" then
    handleServiceDeleted (EventService event)
  else if String.eqb (EventType event) "MODIFIED" then
    handleServiceModified (EventService event)
  else ret tt.

End Core.

(** ** The watch loop

    [startServiceWatcher] runs in a goroutine of its own and blocks in a
    [select] over [ctx.Done()] and the event channel.  What it sees there is
    decided by the rest of the program: the context is cancelled, the
    provider sends an event or closes the channel.  A run is a list of
    [Tick]s: the moves of the surroundings and the choices of the [select].
    Go's [select] takes one of the cases that can proceed, any of them when
    several can, and blocks when none can. *)

(** Where the goroutine of [startServiceWatcher] stands. *)
Inductive Status :=
| Running
| Returned
| ProcessExited (code : Z).

Record Cfg := {
  status : Status;
  ctxDone : bool;         (* ctx.Done() is closed *)
  chBuf : list Event;     (* events sent on eventCh and not yet received *)
  chClosed : bool;        (* eventCh is closed *)
  world : World
}.

(** The two cases of the [select]. *)
Inductive Case := CaseDone | CaseRecv.

Inductive Tick :=
| Cancel              (* the context is cancelled *)
| Send (e : Event)    (* the provider sends an event on the channel *)
| Close               (* the provider closes the channel *)
| Select (c : Case).  (* the select of the loop proceeds with case c *)

(** [select] can proceed with [<-ctx.Done()] once the context is cancelled,
    and with the receive once an event is waiting or the channel is closed. *)
Definition ready (cfg : Cfg) (c : Case) : bool :=
  match c with
  | CaseDone => ctxDone cfg
  | CaseRecv => match chBuf cfg with [] => chClosed cfg | _ :: _ => true end
  end.

Section Watcher.

Variable env : Env.

(** One pass through the body of the [for] loop, the [select] proceeding
    with case [c].  [None]: the [select] cannot proceed with [c] there, or
    the goroutine is not in the loop. *)
Definition loopBody (c : Case) (cfg : Cfg) : option Cfg :=
  match status cfg with
  | Running =>
      if ready cfg c then
        match c with
        | CaseDone =>
            let (_, w) := Logger_Info "Stopping service watcher..." [] (world cfg) in
            Some {| status := Returned; ctxDone := ctxDone cfg;
                    chBuf := chBuf cfg; chClosed := chClosed cfg; world := w |}
        | CaseRecv =>
            match chBuf cfg with
            | [] => (* ok = false *)
                let (_, w) := Logger_Warn "Service watcher channel closed" [] (world cfg) in
                Some {| status := Returned; ctxDone := ctxDone cfg;
                        chBuf := []; chClosed := chClosed cfg; world := w |}
            | event :: rest =>
                let (_, w) := dispatch env event (world cfg) in
                Some {| status := Running; ctxDone := ctxDone cfg;
                        chBuf := rest; chClosed := chClosed cfg; world := w |}
            end
        end
      else None
  | _ => None
  end.

(** A move of the surroundings, or a pass through the loop.  Sending on a
    closed channel and closing it twice panic in the provider: such runs
    are left out ([None]). *)
Definition tick (t : Tick) (cfg : Cfg) : option Cfg :=
  match t with
  | Cancel =>
      Some {| status := status cfg; ctxDone := true; chBuf := chBuf cfg;
              chClosed := chClosed cfg; world := world cfg |}
  | Send e =>
      if chClosed cfg then None
      else Some {| status := status cfg; ctxDone := ctxDone cfg;
                   chBuf := chBuf cfg ++ [e]; chClosed := false;
                   world := world cfg |}
  | Close =>
      if chClosed cfg then None
      else Some {| status := status cfg; ctxDone := ctxDone cfg;
                   chBuf := chBuf cfg; chClosed := true; world := world cfg |}
  | Select c => loopBody c cfg
  end.

Fixpoint run (ticks : list Tick) (cfg : Cfg) : option Cfg :=
  match ticks with
  | [] => Some cfg
  | t :: ticks' =>
      match tick t cfg with
      | Some cfg' => run ticks' cfg'
      | None => None
      end
  end.

(** The part of [startServiceWatcher] before the loop: open the stream;
    when that fails, [Logger.Fatal] and [return]. *)
Definition openWatch : M Status :=
  r <- Services_Watch env "default-namespace" ;;
  match r with
  | Some err =>
      exited <- Logger_Fatal env "Failed to start service watcher" [zapError err] ;;
      match exited with
      | Some code => ret (ProcessExited code)
      | None => ret Returned
      end
  | None => ret Running
  end.

(** [startServiceWatcher(ctx)], started in world [w] with a context that is
    cancelled already or not ([done0]), along the run [ticks].  The channel
    that [Watch] returns starts open and empty. *)
Definition startServiceWatcher (done0 : bool) (ticks : list Tick) (w : World)
  : option Cfg :=
  let (st, w1) := openWatch w in
  run ticks {| status := st; ctxDone := done0; chBuf := []; chClosed := false;
               world := w1 |}.

End Watcher.

(** ** What a trace shows *)

(** The calls on the services provider, on a service and on the resilience
    provider: everything but the log entries. *)
Definition isLog (c : Call) : bool :=
  match c with Log _ _ _ => true | _ => false end.

Definition lifecycle (tr : list Call) : list Call :=
  List.filter (fun c => negb (isLog c)) tr.

Inductive Handler := OnAdded | OnDeleted | OnModified.

(** Each handler starts by logging, at Info level, a message of its own
    with the name and the address of the endpoint it was called with; no
    other entry of a trace has one of these three messages. *)
Definition handlerEntry (c : Call) : option (Handler * string * string) :=
  match c with
  | Log InfoLevel msg [zapString "name" n; zapString "address" a] =>
      if String.eqb msg "Adding service" then Some (OnAdded, n, a)
      else if String.eqb msg "Removing service" then Some (OnDeleted, n, a)
      else if String.eqb msg "Modifying service" then Some (OnModified, n, a)
      else None
  | _ => None
  end.

(** The handler calls a trace shows, in the order they were made. *)
Definition dispatched (tr : list Call) : list (Handler * string * string) :=
  omap handlerEntry tr.

(** The handler call an event asks for, if any. *)
Definition handlerFor (e : Event) : option (Handler * string * string) :=
  let n := Name (EventService e) in
  let a := Address (EventService e) in
  if String.eqb (EventType e) "ADDED" then Some (OnAdded, n, a)
  else if String.eqb (EventType e) "DELETED" then Some (OnDeleted, n, a)
  else if String.eqb (EventType e) "MODIFIED" then Some (OnModified, n, a)
  else None.

(** The events a run puts on the channel, in the order they are sent. *)
Definition sent (ticks : list Tick) : list Event :=
  omap (fun t => match t with Send e => Some e | _ => None end) ticks.

(** The number of passes through the loop in which the [select] proceeded
    with the receive. *)
Definition receives (ticks : list Tick) : nat :=
  length (List.filter
            (fun t => match t with Select CaseRecv => true | _ => false end)
            ticks).

(** ** Specification-side descriptions *)

(** What one call of [handleServiceAdded] on endpoint [e] may do, as the
    calls it makes besides logging and the service map before and after:
    the steps come in the order create, register, initialize, start, and
    the first step that fails is the last one made. *)
Inductive AddedRun (e : ServiceEndpoint) (m : gmap string Service)
  : list Call -> gmap string Service -> Prop :=
| create_failed err :
    AddedRun e m [CallCreateService e (inl err)] m
| register_failed s err :
    AddedRun e m [CallCreateService e (inr s); CallRegister s (Some err)] m
| initialize_failed s err :
    AddedRun e m
      [CallCreateService e (inr s); CallRegister s None;
       CallInitialize s (Some err)]
      (<[ServiceName s := s]> m)
| start_called s r :
    AddedRun e m
      [CallCreateService e (inr s); CallRegister s None;
       CallInitialize s None; CallStart s r]
      (<[ServiceName s := s]> m).

(** ** Concrete environments and inputs *)

Definition endpoint (n : string) : ServiceEndpoint :=
  {| Name := n; Address := n ++ ":8080"; Namespace := "default-namespace" |}.

Definition ADDED (n : string) : Event :=
  {| EventType := "ADDED"; EventService := endpoint n |}.
Definition DELETED (n : string) : Event :=
  {| EventType := "DELETED"; EventService := endpoint n |}.
Definition MODIFIED (n : string) : Event :=
  {| EventType := "MODIFIED"; EventService := endpoint n |}.

Definition serviceOf (e : ServiceEndpoint) : Service :=
  {| ServiceName := Name e; ServiceId := 0 |}.

(** Every collaborator succeeds. *)
Definition envOk : Env :=
  {| watchResult := fun _ _ => None;
     createServiceResult := fun _ e => inr (serviceOf e);
     registerResult := fun _ _ => None;
     initializeResult := fun _ _ => None;
     startResult := fun _ _ => None;
     stopAllResult := fun _ => None;
     resilienceShutdownResult := fun _ => None;
     fatalAction := WriteThenFatal |}.

(** [Register] refuses a name that is in the service map already;
    everything else succeeds. *)
Definition envNoDuplicates : Env :=
  {| watchResult := fun _ _ => None;
     createServiceResult := fun _ e => inr (serviceOf e);
     registerResult := fun w s =>
       match services w !! ServiceName s with
       | Some _ => Some "service already registered"
       | None => None
       end;
     initializeResult := fun _ _ => None;
     startResult := fun _ _ => None;
     stopAllResult := fun _ => None;
     resilienceShutdownResult := fun _ => None;
     fatalAction := WriteThenFatal |}.

(** The stream cannot be opened; [fatal] says what the logger's [Fatal]
    does. *)
Definition envWatchFails (fatal : FatalAction) : Env :=
  {| watchResult := fun _ _ => Some "registry unreachable";
     createServiceResult := fun _ e => inr (serviceOf e);
     registerResult := fun _ _ => None;
     initializeResult := fun _ _ => None;
     startResult := fun _ _ => None;
     stopAllResult := fun _ => None;
     resilienceShutdownResult := fun _ => None;
     fatalAction := fatal |}.

(** Stopping the services and shutting the resilience provider down both
    fail. *)
Definition envShutdownFails : Env :=
  {| watchResult := fun _ _ => None;
     createServiceResult := fun _ e => inr (serviceOf e);
     registerResult := fun _ _ => None;
     initializeResult := fun _ _ => None;
     startResult := fun _ _ => None;
     stopAllResult := fun _ => Some "stop timed out";
     resilienceShutdownResult := fun _ => Some "breaker busy";
     fatalAction := WriteThenFatal |}.

Definition emptyWorld : World := {| services := ∅; trace := [] |}.

(** The configuration of a watcher in its loop, nothing sent yet. *)
Definition idle (done0 : bool) (w : World) : Cfg :=
  {| status := Running; ctxDone := done0; chBuf := []; chClosed := false;
     world := w |}.

Definition RESYNC (n : string) : Event :=
  {| EventType := "RESYNC"; EventService := endpoint n |}.

(** [Register] fails for every service; everything else succeeds. *)
Definition envRegisterFails : Env :=
  {| watchResult := fun _ _ => None;
     createServiceResult := fun _ e => inr (serviceOf e);
     registerResult := fun _ _ => Some "registry full";
     initializeResult := fun _ _ => None;
     startResult := fun _ _ => None;
     stopAllResult := fun _ => None;
     resilienceShutdownResult := fun _ => None;
     fatalAction := WriteThenFatal |}.

(** The scenario of the spec: [a] and [b] are added, [a] is deleted, [b] is
    modified; each event is received before the next one is sent. *)
Definition scenario : list Tick :=
  [Send (ADDED "a"); Select CaseRecv;
   Send (ADDED "b"); Select CaseRecv;
   Send (DELETED "a"); Select CaseRecv;
   Send (MODIFIED "b"); Select CaseRecv].

Definition valOf (o : option Cfg) : Cfg :=
  match o with Some cfg => cfg | None => idle false emptyWorld end.

Definition scenarioEnd : Cfg :=
  valOf (startServiceWatcher envOk false scenario emptyWorld).

(** The watcher after [a] was added and started. *)
Definition afterAdd : Cfg :=
  valOf (startServiceWatcher envOk false [Send (ADDED "a"); Select CaseRecv]
           emptyWorld).

(** The world after an ADDED event for [a] whose [Register] fails, and the
    calls the handler made. *)
Definition refused : World :=
  snd (handleServiceAdded envRegisterFails (endpoint "a") emptyWorld).

Definition refusedCalls : list Call :=
  drop (length (trace emptyWorld)) (trace refused).

(** The world after a second ADDED event for [a], [Register] refusing the
    duplicate, and the calls the handler made. *)
Definition readded : World :=
  snd (handleServiceAdded envNoDuplicates (endpoint "a") (world scenarioEnd)).

Definition readdedCalls : list Call :=
  drop (length (trace (world scenarioEnd))) (trace readded).

(** A cancelled watcher with an event waiting. *)
Definition cancelledBusy : Cfg :=
  {| status := Running; ctxDone := true; chBuf := [ADDED "a"];
     chClosed := false; world := emptyWorld |}.

(** ** Statements of the spec that the code does not meet as worded *)

(** The claim of the spec on a failed [Register], as it is worded: the
    service is not started and the map has no entry for the endpoint. *)
Definition register_failure_leaves_no_entry
    (env : Env) (e : ServiceEndpoint) (w : World) : Prop :=
  forall w' new s err,
    handleServiceAdded env e w = (tt, w') ->
    trace w' = trace w ++ new ->
    In (CallRegister s (Some err)) new ->
    (forall s' r, ~ In (CallStart s' r) new)
    /\ services w' !! Name e = None.

(** The claim of the spec on a stream that cannot be opened, as it is
    worded: the watcher ends and the process lives on. *)
Definition open_failure_spares_process (env : Env) : Prop :=
  forall done0 ticks w err cfg,
    watchResult env w "default-namespace" = Some err ->
    startServiceWatcher env done0 ticks w = Some cfg ->
    status cfg = Returned.

(** The claim of the spec on cancellation, as it is worded: in a run in
    which the context is cancelled, the only events ever dispatched are
    among those sent before the cancellation. *)
Definition cancel_stops_dispatch (env : Env) : Prop :=
  forall before after w cfg,
    startServiceWatcher env false (before ++ Cancel :: after) w = Some cfg ->
    exists k,
      dispatched (trace (world cfg)) =
      dispatched (trace w) ++ omap handlerFor (take k (sent before)).

(** ** The full trace of a run *)

(** The lines the handlers and the loop log. *)
Definition addingLine (e : ServiceEndpoint) : Call :=
  Log InfoLevel "Adding service"
    [zapString "name" (Name e); zapString "address" (Address e)].
Definition removingLine (e : ServiceEndpoint) : Call :=
  Log InfoLevel "Removing service"
    [zapString "name" (Name e); zapString "address" (Address e)].
Definition modifyingLine (e : ServiceEndpoint) : Call :=
  Log InfoLevel "Modifying service"
    [zapString "name" (Name e); zapString "address" (Address e)].
Definition failureLine (msg n : string) (err : error) : Call :=
  Log ErrorLevel msg [zapString "name" n; zapError err].
Definition stoppingLine : Call :=
  Log InfoLevel "Stopping service watcher..." [].
Definition closedLine : Call :=
  Log WarnLevel "Service watcher channel closed" [].
Definition fatalLine (err : error) : Call :=
  Log FatalLevel "Failed to start service watcher" [zapError err].

(** Everything one call of [handleServiceAdded] adds to the trace, log
    lines included, with the service map before and after. *)
Inductive AddedTrace (e : ServiceEndpoint) (m : gmap string Service)
  : list Call -> gmap string Service -> Prop :=
| trace_create_failed err :
    AddedTrace e m
      [addingLine e; CallCreateService e (inl err);
       failureLine "Failed to create service" (Name e) err]
      m
| trace_register_failed s err :
    AddedTrace e m
      [addingLine e; CallCreateService e (inr s); CallRegister s (Some err);
       failureLine "Failed to register service" (ServiceName s) err]
      m
| trace_initialize_failed s err :
    AddedTrace e m
      [addingLine e; CallCreateService e (inr s); CallRegister s None;
       CallInitialize s (Some err);
       failureLine "Failed to initialize service" (ServiceName s) err]
      (<[ServiceName s := s]> m)
| trace_start_failed s err :
    AddedTrace e m
      [addingLine e; CallCreateService e (inr s); CallRegister s None;
       CallInitialize s None; CallStart s (Some err);
       failureLine "Failed to start service" (ServiceName s) err]
      (<[ServiceName s := s]> m)
| trace_started s :
    AddedTrace e m
      [addingLine e; CallCreateService e (inr s); CallRegister s None;
       CallInitialize s None; CallStart s None]
      (<[ServiceName s := s]> m).

(** What receiving one event adds to the trace. *)
Inductive HandlerTrace (ev : Event) (m : gmap string Service)
  : list Call -> gmap string Service -> Prop :=
| ht_added t m' :
    EventType ev = "ADDED" ->
    AddedTrace (EventService ev) m t m' ->
    HandlerTrace ev m t m'
| ht_deleted :
    EventType ev = "DELETED" ->
    HandlerTrace ev m [removingLine (EventService ev)] m
| ht_modified :
    EventType ev = "MODIFIED" ->
    HandlerTrace ev m [modifyingLine (EventService ev)] m
| ht_ignored :
    EventType ev <> "ADDED" ->
    EventType ev <> "DELETED" ->
    EventType ev <> "MODIFIED" ->
    HandlerTrace ev m [] m.

(** What receiving a list of events, one after the other, adds. *)
Inductive EventTraces
  : gmap string Service -> list Event -> list Call -> gmap string Service
    -> Prop :=
| et_nil m : EventTraces m [] [] m
| et_cons m ev t m1 evs ts m' :
    HandlerTrace ev m t m1 ->
    EventTraces m1 evs ts m' ->
    EventTraces m (ev :: evs) (t ++ ts) m'.

(** How the trace of a run ends, by where the watcher stands: still in the
    loop, returned on cancellation, or returned on a closed channel. *)
Definition ExitTail (cfg : Cfg) (tail : list Call) : Prop :=
  (status cfg = Running /\ tail = [])
  \/ (status cfg = Returned /\ tail = [stoppingLine] /\ ctxDone cfg = true)
  \/ (status cfg = Returned /\ tail = [closedLine] /\ chClosed cfg = true).

(** The calls besides logging that a list of received events causes: the
    steps of each ADDED event as one block, block after block. *)
Inductive AddedBlocks
  : gmap string Service -> list Event -> list Call -> gmap string Service
    -> Prop :=
| blocks_nil m : AddedBlocks m [] [] m
| blocks_other m ev evs calls m' :
    EventType ev <> "ADDED" ->
    AddedBlocks m evs calls m' ->
    AddedBlocks m (ev :: evs) calls m'
| blocks_added m ev b m1 evs calls m' :
    EventType ev = "ADDED" ->
    AddedRun (EventService ev) m b m1 ->
    AddedBlocks m1 evs calls m' ->
    AddedBlocks m (ev :: evs) (b ++ calls) m'.

(** The Error line that reports a failed step of [handleServiceAdded] on
    endpoint [e]; [None] for a call that succeeded. *)
Definition failureLog (e : ServiceEndpoint) (c : Call) : option Call :=
  match c with
  | CallCreateService _ (inl err) =>
      Some (failureLine "Failed to create service" (Name e) err)
  | CallRegister s (Some err) =>
      Some (failureLine "Failed to register service" (ServiceName s) err)
  | CallInitialize s (Some err) =>
      Some (failureLine "Failed to initialize service" (ServiceName s) err)
  | CallStart s (Some err) =>
      Some (failureLine "Failed to start service" (ServiceName s) err)
  | _ => None
  end.

Definition isFatal (c : Call) : bool :=
  match c with Log FatalLevel _ _ => true | _ => false end.

Definition isErrorLine (c : Call) : bool :=
  match c with Log ErrorLevel _ _ => true | _ => false end.

(** The world after an ADDED event for [a] with every step succeeding, and
    the calls the handler made. *)
Definition added : World :=
  snd (handleServiceAdded envOk (endpoint "a") emptyWorld).

Definition addedCalls : list Call :=
  drop (length (trace emptyWorld)) (trace added).

(** A run in which [a] is added, deleted and added again, [Register]
    refusing the duplicate, and then the channel is closed. *)
Definition readdRun : list Tick :=
  [Send (ADDED "a"); Send (DELETED "a"); Send (ADDED "a"); Close;
   Select CaseRecv; Select CaseRecv; Select CaseRecv; Select CaseRecv].

Definition readdEnd : Cfg :=
  valOf (startServiceWatcher envNoDuplicates false readdRun emptyWorld).

Definition readdNew : list Call :=
  drop (length (trace emptyWorld)) (trace (world readdEnd)).

(** ** The program around [Core]: [NewCore] and [main]

    [NewCore], [initializeObservability] and the functions of
    [cmd/core/main.go] make calls that [Core]'s methods do not make
    (constructors, bulk initialize and start, discovery), and they can end
    the process.  They get a trace of [Step]s of their own and a monad with
    the ways a Go program stops. *)

(** [*types.CoreConfig], declared in [core/internal/types]; never looked
    into here. *)
Inductive CoreConfig := coreConfig (id : nat).

(** The three collaborators, as the values the constructors return. *)
Inductive ObservabilityT := observer.
Inductive ResilienceT := resilienceService (name : string).
Inductive ServicesT := servicesProvider.

Record Core := {
  Config : CoreConfig;
  Observability : ObservabilityT;
  Resilience : ResilienceT;
  Services : ServicesT
}.

Inductive Step :=
| CoreStep (c : Call)                 (* a log entry, through [obs.Logger] *)
| CallNewObserver (r : option error)
| StdLogFatal (msg : string) (err : error)   (* [log.Fatal] of the standard library *)
| CallLoadCoreConfig (r : error + CoreConfig)
| CallNewResilienceService (name : string)
| CallNewServices (r : option error)
| CallInitializeAll (r : option error)
| CallStartAll (r : option error)
| CallDiscover (ns : string) (r : error + list ServiceEndpoint)
| SignalNotify.                       (* [signal.Notify] for SIGINT and SIGTERM *)

(** How a computation of the program ends: it returns, the process exits,
    it panics, or it waits for ever. *)
Inductive Outcome (A : Type) :=
| Done (a : A)
| Exit (code : Z)
| Panic (msg : string)
| Blocked.

Arguments Done {A} a.
Arguments Exit {A} code.
Arguments Panic {A} msg.
Arguments Blocked {A}.

(** The answers of the constructors and of the services provider, each
    after everything that happened before; [loggerFatal] is what the
    logger's [Fatal] does. *)
Record ProgramEnv := {
  newObserverResult : list Step -> option error;
  loadCoreConfigResult : list Step -> error + CoreConfig;
  newServicesResult : list Step -> option error;
  initializeAllResult : list Step -> option error;
  startAllResult : list Step -> option error;
  discoverResult : list Step -> string -> error + list ServiceEndpoint;
  loggerFatal : FatalAction
}.

Definition P (A : Type) : Type := list Step -> Outcome A * list Step.

Definition retP {A} (a : A) : P A := fun tr => (Done a, tr).

Definition bindP {A B} (m : P A) (k : A -> P B) : P B :=
  fun tr =>
    match m tr with
    | (Done a, tr1) => k a tr1
    | (Exit code, tr1) => (Exit code, tr1)
    | (Panic msg, tr1) => (Panic msg, tr1)
    | (Blocked, tr1) => (Blocked, tr1)
    end.

Notation "x <<- m ;; k" := (bindP m (fun x => k))
  (at level 100, m at next level, right associativity).
Notation "m >>; k" := (bindP m (fun _ => k))
  (at level 100, right associativity).

Definition emitP (s : Step) : P unit := fun tr => (Done tt, tr ++ [s]).

Definition step {A} (answer : list Step -> A) (entry : A -> Step) : P A :=
  fun tr => let r := answer tr in (Done r, tr ++ [entry r]).

(** [os.Exit(code)] and [panic(msg)]. *)
Definition exit {A} (code : Z) : P A := fun tr => (Exit code, tr).
Definition panic {A} (msg : string) : P A := fun tr => (Panic msg, tr).

(** [<-shutdownCtx.Done()]: goes on once the context is cancelled, which
    the goroutine of [setupSignalHandler] does when a signal arrives. *)
Definition waitDone (signal : bool) : P unit :=
  fun tr => if signal then (Done tt, tr) else (Blocked, tr).

Section Program.

Variable env : ProgramEnv.

Definition InfoP (msg : string) (fields : list Field) : P unit :=
  emitP (CoreStep (Log InfoLevel msg fields)).
Definition WarnP (msg : string) (fields : list Field) : P unit :=
  emitP (CoreStep (Log WarnLevel msg fields)).
Definition ErrorP (msg : string) (fields : list Field) : P unit :=
  emitP (CoreStep (Log ErrorLevel msg fields)).

(** [Logger.Fatal] in the program: the entry is written, then the process
    exits with status 1, or the call comes back. *)
Definition FatalP (msg : string) (fields : list Field) : P unit :=
  emitP (CoreStep (Log FatalLevel msg fields)) >>;
  match loggerFatal env with
  | WriteThenFatal => exit 1
  | WriteThenReturn => retP tt
  end.

(** [initializeObservability]. *)
Definition initializeObservability : P ObservabilityT :=
  r <<- step (newObserverResult env) CallNewObserver ;;
  match r with
  | Some err =>
      emitP (StdLogFatal "Failed to initialize observability" err) >>;
      exit 1
  | None => retP observer
  end.

(** The arguments [NewCore] gives to [NewResilienceService]: retry on all
    errors, and a log line when the circuit breaker opens or closes. *)
Definition retryOnAllErrors (err : error) : bool := true.
Definition OnOpen (name : string) : P unit :=
  WarnP "Circuit breaker opened" [zapString "name" name].
Definition OnClose (name : string) : P unit :=
  InfoP "Circuit breaker closed" [zapString "name" name].

Definition NewResilienceService (name : string) : P ResilienceT :=
  emitP (CallNewResilienceService name) >>; retP (resilienceService name).

(** [NewCore]. *)
Definition NewCore : P (error + Core) :=
  obs <<- initializeObservability ;;
  InfoP "Core Initializing..." [] >>;
  r <<- step (loadCoreConfigResult env) CallLoadCoreConfig ;;
  match r with
  | inl err => retP (inl err)
  | inr cfg =>
      res <<- NewResilienceService "core" ;;
      r <<- step (newServicesResult env) CallNewServices ;;
      match r with
      | Some err =>
          ErrorP "Failed to initialize services" [zapError err] >>;
          retP (inl err)
      | None =>
          retP (inr {| Config := cfg; Observability := obs;
                       Resilience := res; Services := servicesProvider |})
      end
  end.

(** [setupSignalHandler]: registers for the two signals and starts the
    goroutine that cancels the context on the first one. *)
Definition setupSignalHandler : P unit := emitP SignalNotify.

(** [initializeAndStartServices]: neither [Fatal] is followed by a
    [return]. *)
Definition initializeAndStartServices : P unit :=
  InfoP "Services are initializing..." [] >>;
  r <<- step (initializeAllResult env) CallInitializeAll ;;
  match r with
  | Some err => FatalP "Failed to initialize services-library" [zapError err]
  | None => retP tt
  end >>;
  InfoP "Services are starting..." [] >>;
  r <<- step (startAllResult env) CallStartAll ;;
  match r with
  | Some err => FatalP "Failed to start services-library" [zapError err]
  | None => retP tt
  end.

(** The line [main] logs for a discovered endpoint. *)
Definition discoveredLine (endpoint : ServiceEndpoint) : Step :=
  CoreStep (Log InfoLevel
              ("Service: " ++ Name endpoint ++ " " ++ Address endpoint
               ++ " discovered")%string []).

(** The [for _, endpoint := range serviceEndpoints] loop of [main]. *)
Fixpoint logDiscovered (serviceEndpoints : list ServiceEndpoint) : P unit :=
  match serviceEndpoints with
  | [] => retP tt
  | endpoint :: rest => emitP (discoveredLine endpoint) >>; logDiscovered rest
  end.

(** [main]; [signal] says whether SIGINT or SIGTERM is ever delivered. *)
Definition main (signal : bool) : P unit :=
  setupSignalHandler >>;
  r <<- NewCore ;;
  match r with
  | inl _ => panic "Failed to create core-service"
  | inr newCore =>
      initializeAndStartServices >>;
      r <<- step (fun tr => discoverResult env tr "goletan")
              (CallDiscover "goletan") ;;
      match r with
      | inl _ => retP tt
      | inr serviceEndpoints =>
          logDiscovered serviceEndpoints >>;
          InfoP "core Service is running..." [] >>;
          waitDone signal >>;
          InfoP "core Service shutting down..." []
      end
  end.

End Program.

(** The end of [main] that a failure while the program is built leads to,
    by the call that failed. *)
Definition constructionFailure (s : Step) : option (Outcome unit) :=
  match s with
  | CallNewObserver (Some _) => Some (Exit 1)
  | CallLoadCoreConfig (inl _) => Some (Panic "Failed to create core-service")
  | CallNewServices (Some _) => Some (Panic "Failed to create core-service")
  | _ => None
  end.

(** The calls on the services provider that [main] makes. *)
Definition onServices (s : Step) : bool :=
  match s with
  | CallInitializeAll _ | CallStartAll _ | CallDiscover _ _ => true
  | _ => false
  end.

(** A call that only the methods of [Core] make: [Watch], the steps of a
    handler, [StopAll], the shutdown of the resilience provider. *)
Definition isCoreCall (s : Step) : bool :=
  match s with
  | CoreStep c => negb (isLog c)
  | _ => false
  end.

Definition isStartAll (s : Step) : bool :=
  match s with CallStartAll _ => true | _ => false end.

(** Everything succeeds; discovery returns [eps]. *)
Definition programOk (eps : list ServiceEndpoint) : ProgramEnv :=
  {| newObserverResult := fun _ => None;
     loadCoreConfigResult := fun _ => inr (coreConfig 0);
     newServicesResult := fun _ => None;
     initializeAllResult := fun _ => None;
     startAllResult := fun _ => None;
     discoverResult := fun _ _ => inr eps;
     loggerFatal := WriteThenFatal |}.

(** [InitializeAll] fails; [fatal] says what the logger's [Fatal] does. *)
Definition programInitializeAllFails (fatal : FatalAction) : ProgramEnv :=
  {| newObserverResult := fun _ => None;
     loadCoreConfigResult := fun _ => inr (coreConfig 0);
     newServicesResult := fun _ => None;
     initializeAllResult := fun _ => Some "dependency missing";
     startAllResult := fun _ => None;
     discoverResult := fun _ _ => inr [];
     loggerFatal := fatal |}.

(** The configuration cannot be loaded. *)
Definition programConfigFails : ProgramEnv :=
  {| newObserverResult := fun _ => None;
     loadCoreConfigResult := fun _ => inl "no config file";
     newServicesResult := fun _ => None;
     initializeAllResult := fun _ => None;
     startAllResult := fun _ => None;
     discoverResult := fun _ _ => inr [];
     loggerFatal := WriteThenFatal |}.

(** The services provider cannot be built. *)
Definition programServicesFail : ProgramEnv :=
  {| newObserverResult := fun _ => None;
     loadCoreConfigResult := fun _ => inr (coreConfig 0);
     newServicesResult := fun _ => Some "no registry";
     initializeAllResult := fun _ => None;
     startAllResult := fun _ => None;
     discoverResult := fun _ _ => inr [];
     loggerFatal := WriteThenFatal |}.

(** Discovery fails. *)
Definition programDiscoverFails : ProgramEnv :=
  {| newObserverResult := fun _ => None;
     loadCoreConfigResult := fun _ => inr (coreConfig 0);
     newServicesResult := fun _ => None;
     initializeAllResult := fun _ => None;
     startAllResult := fun _ => None;
     discoverResult := fun _ _ => inl "registry unreachable";
     loggerFatal := WriteThenFatal |}.

(** How [NewCore] ends when a constructor fails, and the last entry it
    leaves, by the call that failed. *)
Definition newCoreFailure (s : Step)
  : option (Outcome (error + Core) * Step) :=
  match s with
  | CallNewObserver (Some err) =>
      Some (Exit 1, StdLogFatal "Failed to initialize observability" err)
  | CallLoadCoreConfig (inl err) => Some (Done (inl err), s)
  | CallNewServices (Some err) =>
      Some (Done (inl err),
            CoreStep (Log ErrorLevel "Failed to initialize services"
                        [zapError err]))
  | _ => None
  end.

(** The two lines [main] logs around its wait. *)
Definition runningLine : Step :=
  CoreStep (Log InfoLevel "core Service is running..." []).
Definition shuttingDownLine : Step :=
  CoreStep (Log InfoLevel "core Service shutting down..." []).

(** The entries of a trace after its first [Discover] call. *)
Fixpoint afterDiscover (tr : list Step) : list Step :=
  match tr with
  | [] => []
  | CallDiscover _ _ :: rest => rest
  | _ :: rest => afterDiscover rest
  end.

(** The statement of the spec on a channel that closes with no
    cancellation, as it is worded: in a run without any cancellation in
    which the channel is closed and the watcher has returned, the last
    entry is the warning and the service map is the one of the moment the
    channel was closed. *)
Definition closure_leaves_map (env : Env) : Prop :=
  forall before after w atClose atReturn,
    startServiceWatcher env false (before ++ [Close]) w = Some atClose ->
    startServiceWatcher env false (before ++ Close :: after) w = Some atReturn ->
    ctxDone atReturn = false ->
    status atReturn = Returned ->
    last (trace (world atReturn)) = Some closedLine
    /\ services (world atReturn) = services (world atClose).

(** A watcher in its loop, not cancelled, on a closed channel with one
    event still waiting. *)
Definition closedBusy : Cfg :=
  {| status := Running; ctxDone := false; chBuf := [ADDED "a"];
     chClosed := true; world := emptyWorld |}.

(** ** Proof steps *)

Ltac run_monad :=
  cbv beta iota delta
    [bind ret emit call Logger_Info Logger_Warn Logger_Error Logger_Fatal
     Services_Watch Services_CreateService Services_Register
     Services_StopAll Service_Initialize Service_Start Resilience_Shutdown];
  cbn [services trace].

(** Case analysis on the answer of the next call on a collaborator. *)
Ltac case_oracle f :=
  match goal with
  | |- context [f ?env ?w ?x] =>
      let r := fresh "r" in
      destruct (f env w x) as [r|]; cbn [services trace]
  end.

Ltac added_done :=
  eexists; eexists; rewrite <- ?app_assoc;
  split; [reflexivity | split; [cbn; constructor | reflexivity]].

Lemma lifecycle_app (a b : list Call) :
  lifecycle (a ++ b) = lifecycle a ++ lifecycle b.
Proof. unfold lifecycle. apply List.filter_app. Qed.

Lemma dispatched_app (a b : list Call) :
  dispatched (a ++ b) = dispatched a ++ dispatched b.
Proof. unfold dispatched. apply omap_app. Qed.

(** ** Lemmas on the handlers *)

(** The full effect of [handleServiceAdded]: it returns, the trace grows by
    [new], and [new] and the map follow [AddedRun]; the handler entry is
    the first thing logged and nothing else in [new] looks like one. *)
Lemma handleServiceAdded_effect (env : Env) (e : ServiceEndpoint) (w : World) :
  exists new m',
    handleServiceAdded env e w = (tt, {| services := m'; trace := trace w ++ new |})
    /\ AddedRun e (services w) (lifecycle new) m'
    /\ dispatched new = [(OnAdded, Name e, Address e)].
Proof.
  unfold handleServiceAdded. run_monad.
  case_oracle createServiceResult; [added_done|].
  case_oracle registerResult; [added_done|].
  case_oracle initializeResult; [added_done|].
  case_oracle startResult; added_done.
Qed.

Lemma handleServiceDeleted_effect (e : ServiceEndpoint) (w : World) :
  handleServiceDeleted e w =
  (tt, {| services := services w;
          trace := trace w ++
            [Log InfoLevel "Removing service"
               [zapString "name" (Name e); zapString "address" (Address e)]] |}).
Proof. reflexivity. Qed.

Lemma handleServiceModified_effect (e : ServiceEndpoint) (w : World) :
  handleServiceModified e w =
  (tt, {| services := services w;
          trace := trace w ++
            [Log InfoLevel "Modifying service"
               [zapString "name" (Name e); zapString "address" (Address e)]] |}).
Proof. reflexivity. Qed.

(** [dispatch] calls the handler the event type names, and none for any
    other type. *)
Lemma dispatch_effect (env : Env) (event : Event) (w : World) :
  exists new m',
    dispatch env event w = (tt, {| services := m'; trace := trace w ++ new |})
    /\ dispatched new = option_list (handlerFor event).
Proof.
  unfold dispatch, handlerFor.
  destruct (String.eqb (EventType event) "ADDED").
  { destruct (handleServiceAdded_effect env (EventService event) w)
      as (new & m' & Heq & _ & Hd).
    exists new, m'. split; assumption. }
  destruct (String.eqb (EventType event) "DELETED").
  { rewrite handleServiceDeleted_effect. eexists _, _. split; reflexivity. }
  destruct (String.eqb (EventType event) "MODIFIED").
  { rewrite handleServiceModified_effect. eexists _, _. split; reflexivity. }
  exists [], (services w). rewrite app_nil_r. destruct w. split; reflexivity.
Qed.

(** ** Lemmas on runs *)

Section Runs.

Variable env : Env.

Lemma run_app (t1 t2 : list Tick) (cfg : Cfg) :
  run env (t1 ++ t2) cfg =
  match run env t1 cfg with
  | Some cfg1 => run env t2 cfg1
  | None => None
  end.
Proof.
  revert cfg. induction t1 as [|t t1 IH]; intros cfg; cbn; [reflexivity|].
  destruct (tick env t cfg); [apply IH | reflexivity].
Qed.

(** Outside the loop, no pass through the loop body is possible. *)
Lemma loopBody_running (c : Case) (cfg cfg' : Cfg) :
  loopBody env c cfg = Some cfg' -> status cfg = Running.
Proof. unfold loopBody. destruct (status cfg); congruence. Qed.

(** Once the goroutine has left the loop, whatever the surroundings do,
    the world and the status stay as they are. *)
Lemma tick_stopped (t : Tick) (cfg cfg' : Cfg) :
  status cfg <> Running ->
  tick env t cfg = Some cfg' ->
  world cfg' = world cfg /\ status cfg' = status cfg.
Proof.
  intros Hs. destruct t as [| e | | c]; cbn.
  - intros [= <-]. split; reflexivity.
  - destruct (chClosed cfg); [discriminate|]. intros [= <-]. split; reflexivity.
  - destruct (chClosed cfg); [discriminate|]. intros [= <-]. split; reflexivity.
  - intros H. apply loopBody_running in H. contradiction.
Qed.

Lemma run_stopped (ticks : list Tick) (cfg cfg' : Cfg) :
  status cfg <> Running ->
  run env ticks cfg = Some cfg' ->
  world cfg' = world cfg /\ status cfg' = status cfg.
Proof.
  revert cfg. induction ticks as [|t ticks IH]; intros cfg Hs; cbn.
  - intros [= <-]. split; reflexivity.
  - destruct (tick env t cfg) as [cfg1|] eqn:Ht; [|discriminate].
    intros Hrun. destruct (tick_stopped t cfg cfg1 Hs Ht) as [Hw Hst].
    destruct (IH cfg1) as [Hw' Hst']; [congruence | assumption |].
    split; congruence.
Qed.

(** The order invariant of a run: the handler calls made are those for
    the first [k] events of the queue (what was waiting, then what the run
    sends), the rest of the queue is still waiting, in order, and every
    one of the [k] events took a pass through the loop of its own. *)
Lemma run_in_order (ticks : list Tick) (cfg cfg' : Cfg) :
  run env ticks cfg = Some cfg' ->
  exists k,
    dispatched (trace (world cfg')) =
      dispatched (trace (world cfg))
      ++ omap handlerFor (take k (chBuf cfg ++ sent ticks))
    /\ chBuf cfg' = drop k (chBuf cfg ++ sent ticks)
    /\ k <= receives ticks.
Proof.
  revert cfg. induction ticks as [|t ticks IH]; intros cfg; cbn [run].
  { intros [= <-]. exists 0. cbn. rewrite !app_nil_r. repeat split; lia. }
  destruct (tick env t cfg) as [cfg1|] eqn:Ht; [|discriminate].
  intros Hrun. destruct (IH cfg1 Hrun) as (k & Hd & Hb & Hk). clear IH Hrun.
  destruct t as [| e | | c]; cbn in Ht.
  - injection Ht as <-. cbn in *. exists k. repeat split; assumption.
  - destruct (chClosed cfg); [discriminate|]. injection Ht as <-.
    cbn in *. rewrite <- app_assoc in Hd, Hb. exists k.
    repeat split; assumption.
  - destruct (chClosed cfg); [discriminate|]. injection Ht as <-.
    cbn in *. exists k. repeat split; assumption.
  - unfold loopBody in Ht. destruct (status cfg); try discriminate.
    destruct (ready cfg c); [|discriminate].
    destruct c.
    + injection Ht as <-. cbn in *. exists k. repeat split; try assumption.
      rewrite Hd, dispatched_app. cbn. rewrite app_nil_r. reflexivity.
    + unfold receives in *. cbn [List.filter length].
      destruct (chBuf cfg) as [|event rest] eqn:Hbuf.
      * injection Ht as <-. cbn in *. exists k. repeat split; [|assumption|lia].
        rewrite Hd, dispatched_app. cbn. rewrite app_nil_r. reflexivity.
      * destruct (dispatch_effect env event (world cfg))
          as (new & m' & Heq & Hnew).
        rewrite Heq in Ht. injection Ht as <-. cbn in *.
        exists (S k). repeat split; [|assumption|lia].
        rewrite Hd, dispatched_app, Hnew, <- app_assoc. cbn.
        destruct (handlerFor event); reflexivity.
Qed.

End Runs.

(** The effect of opening the stream. *)
Lemma openWatch_effect (env : Env) (w : World) :
  openWatch env w =
  match watchResult env w "default-namespace" with
  | None =>
      (Running,
       {| services := services w;
          trace := trace w ++ [CallWatch "default-namespace" None] |})
  | Some err =>
      (match fatalAction env with
       | WriteThenFatal => ProcessExited 1
       | WriteThenReturn => Returned
       end,
       {| services := services w;
          trace := trace w ++
            [CallWatch "default-namespace" (Some err);
             Log FatalLevel "Failed to start service watcher" [zapError err]] |})
  end.
Proof.
  unfold openWatch. run_monad.
  destruct (watchResult env w "default-namespace"); [|reflexivity].
  cbn [services trace]. rewrite <- app_assoc.
  destruct (fatalAction env); reflexivity.
Qed.

Lemma openWatch_dispatched (env : Env) (w : World) :
  dispatched (trace (snd (openWatch env w))) = dispatched (trace w).
Proof.
  rewrite openWatch_effect.
  destruct (watchResult env w "default-namespace"); cbn;
    rewrite dispatched_app; cbn; apply app_nil_r.
Qed.

(** ** The watcher: order of dispatch *)

(** When nothing is left waiting on the channel, every event that was sent
    has been dispatched. *)
Lemma drained_watcher_dispatched_all
    (env : Env) (done0 : bool) (ticks : list Tick) (w : World) (cfg : Cfg) :
  startServiceWatcher env done0 ticks w = Some cfg ->
  chBuf cfg = [] ->
  dispatched (trace (world cfg)) =
    dispatched (trace w) ++ omap handlerFor (sent ticks).
Proof.
  unfold startServiceWatcher.
  pose proof (openWatch_dispatched env w) as Hopen.
  destruct (openWatch env w) as [st w1]. cbn in Hopen.
  intros Hrun Hempty. apply run_in_order in Hrun. cbn in Hrun.
  destruct Hrun as (k & Hd & Hb & _).
  rewrite Hd, Hopen. f_equal. f_equal.
  rewrite <- (take_drop k (sent ticks)) at 2.
  rewrite <- Hb, Hempty, app_nil_r. reflexivity.
Qed.

(** C10: an event whose type is none of ADDED, DELETED and MODIFIED is
    received and dropped: no handler runs, the world (service map and
    trace) stays as it is, the watcher stays in its loop, and the run goes
    on with the events behind it. *)
Theorem unknown_event_type_is_ignored
    (env : Env) (cfg : Cfg) (event : Event) (rest : list Event)
    (ticks : list Tick) :
  status cfg = Running ->
  chBuf cfg = event :: rest ->
  EventType event <> "ADDED" ->
  EventType event <> "DELETED" ->
  EventType event <> "MODIFIED" ->
  run env (Select CaseRecv :: ticks) cfg =
  run env ticks {| status := Running; ctxDone := ctxDone cfg; chBuf := rest;
                   chClosed := chClosed cfg; world := world cfg |}.
Proof.
  intros Hs Hb Ha Hd Hm. cbn [run tick]. unfold loopBody, ready, dispatch.
  rewrite Hs, Hb.
  apply String.eqb_neq in Ha, Hd, Hm. rewrite Ha, Hd, Hm.
  reflexivity.
Qed.

Lemma unknown_event_type_is_ignored_witness :
  run envOk [Select CaseRecv; Select CaseRecv]
    {| status := Running; ctxDone := false;
       chBuf := [RESYNC "a"; ADDED "b"]; chClosed := false;
       world := emptyWorld |} =
  run envOk [Select CaseRecv]
    {| status := Running; ctxDone := false; chBuf := [ADDED "b"];
       chClosed := false; world := emptyWorld |}.
Proof.
  apply (unknown_event_type_is_ignored envOk
           {| status := Running; ctxDone := false;
              chBuf := [RESYNC "a"; ADDED "b"]; chClosed := false;
              world := emptyWorld |}
           (RESYNC "a") [ADDED "b"] [Select CaseRecv]);
    [reflexivity | reflexivity | discriminate | discriminate | discriminate].
Defined.

(** ** The watcher: leaving the loop *)

(** A cancelled watcher with nothing waiting on an open channel can only
    proceed with the cancellation case. *)
Lemma cancelled_idle_watcher_stops (env : Env) (cfg : Cfg) :
  status cfg = Running ->
  ctxDone cfg = true ->
  chBuf cfg = [] ->
  chClosed cfg = false ->
  tick env (Select CaseRecv) cfg = None
  /\ exists cfg', tick env (Select CaseDone) cfg = Some cfg'
                  /\ status cfg' = Returned.
Proof.
  intros Hs Hd Hb Hc. cbn [tick]. unfold loopBody, ready.
  rewrite Hs, Hd, Hb, Hc. split; [reflexivity|].
  eexists. split; reflexivity.
Qed.

(** Events sent before the channel was closed are still received and
    dispatched; the closure is seen once the channel is drained. *)
Example closed_channel_is_drained_first :
  exists cfg,
    startServiceWatcher envOk false
      [Send (ADDED "a"); Close; Select CaseRecv; Select CaseRecv] emptyWorld
    = Some cfg
    /\ status cfg = Returned
    /\ dispatched (trace (world cfg)) = [(OnAdded, "a", "a:8080")]
    /\ last (trace (world cfg)) =
       Some (Log WarnLevel "Service watcher channel closed" []).
Proof. eexists. repeat split; vm_compute; reflexivity. Qed.

(** ** The handler of ADDED events *)

(** C2: an ADDED event makes the steps create, register, initialize, start
    in that order; the first step that fails is the last step made (no
    later step, no second try, nothing undone: a service registered before
    a failed initialize or start stays in the map); and whatever fails,
    the handler returns to the loop, which goes on with the next event. *)
Theorem added_event_steps_in_order
    (env : Env) (cfg : Cfg) (event : Event) (rest : list Event) :
  status cfg = Running ->
  chBuf cfg = event :: rest ->
  EventType event = "ADDED" ->
  exists new m',
    tick env (Select CaseRecv) cfg =
    Some {| status := Running; ctxDone := ctxDone cfg; chBuf := rest;
            chClosed := chClosed cfg;
            world := {| services := m';
                        trace := trace (world cfg) ++ new |} |}
    /\ AddedRun (EventService event) (services (world cfg)) (lifecycle new) m'.
Proof.
  intros Hs Hb Ht. cbn [tick]. unfold loopBody, ready, dispatch.
  rewrite Hs, Hb, Ht. cbn [String.eqb Ascii.eqb Bool.eqb].
  destruct (handleServiceAdded_effect env (EventService event) (world cfg))
    as (new & m' & Heq & Hrun & _).
  exists new, m'. rewrite Heq. split; [reflexivity | assumption].
Qed.

Lemma added_event_steps_in_order_witness :
  exists new m',
    tick envNoDuplicates (Select CaseRecv)
      {| status := Running; ctxDone := false; chBuf := [ADDED "a"; ADDED "b"];
         chClosed := false; world := world scenarioEnd |} =
    Some {| status := Running; ctxDone := false; chBuf := [ADDED "b"];
            chClosed := false;
            world := {| services := m';
                        trace := trace (world scenarioEnd) ++ new |} |}
    /\ AddedRun (endpoint "a") (services (world scenarioEnd)) (lifecycle new) m'.
Proof.
  apply (added_event_steps_in_order envNoDuplicates
           {| status := Running; ctxDone := false;
              chBuf := [ADDED "a"; ADDED "b"]; chClosed := false;
              world := world scenarioEnd |}
           (ADDED "a") [ADDED "b"]);
    reflexivity.
Defined.

Lemma in_lifecycle (c : Call) (tr : list Call) :
  In c tr -> isLog c = false -> In c (lifecycle tr).
Proof.
  intros Hin Hlog. unfold lifecycle. apply List.filter_In.
  split; [assumption | rewrite Hlog; reflexivity].
Qed.

(** C6 (amended): when, for an ADDED event, [Register] fails (so
    [CreateService] had succeeded), [Start] is called on no service and
    the service map is left exactly as it was before the event; it holds
    an entry for the endpoint's name afterwards only if it held one
    before. *)
Theorem register_failure_starts_nothing
    (env : Env) (e : ServiceEndpoint) (w w' : World) (new : list Call)
    (s : Service) (err : error) :
  handleServiceAdded env e w = (tt, w') ->
  trace w' = trace w ++ new ->
  In (CallRegister s (Some err)) new ->
  (forall s' r, ~ In (CallStart s' r) new)
  /\ services w' = services w
  /\ (services w !! Name e = None -> services w' !! Name e = None).
Proof.
  intros Hrun Htr Hin.
  destruct (handleServiceAdded_effect env e w) as (new0 & m' & Heq & Hsteps & _).
  rewrite Heq in Hrun. injection Hrun as <-. cbn in Htr.
  apply app_inv_head in Htr. subst new0.
  apply in_lifecycle in Hin; [|reflexivity].
  assert (Hcase : lifecycle new =
                  [CallCreateService e (inr s); CallRegister s (Some err)]
                  /\ m' = services w).
  { inversion Hsteps as [err0 Hl | s0 err0 Hl | s0 err0 Hl | s0 r0 Hl];
      rewrite <- Hl in Hin; cbn in Hin;
      repeat (destruct Hin as [Hin|Hin]; try discriminate Hin);
      try contradiction.
    injection Hin as -> ->. split; reflexivity. }
  destruct Hcase as [Hl ->]. cbn [services].
  split; [|split; [reflexivity | trivial]].
  intros s' r Hstart. apply in_lifecycle in Hstart; [|reflexivity].
  rewrite Hl in Hstart. cbn in Hstart.
  repeat (destruct Hstart as [Hstart|Hstart]; try discriminate Hstart).
  contradiction.
Qed.

Lemma register_failure_starts_nothing_witness :
  (forall s' r, ~ In (CallStart s' r) refusedCalls)
  /\ services refused = services emptyWorld
  /\ (services emptyWorld !! Name (endpoint "a") = None ->
      services refused !! Name (endpoint "a") = None).
Proof.
  apply (register_failure_starts_nothing envRegisterFails (endpoint "a")
           emptyWorld refused refusedCalls
           (serviceOf (endpoint "a")) "registry full").
  - reflexivity.
  - vm_compute. reflexivity.
  - vm_compute. right. right. left. reflexivity.
Defined.

(** C6, as worded, fails where the name is registered already: [a] is in
    the map, a second ADDED event for [a] has [Register] refuse the
    duplicate, and the map still holds [a] afterwards. *)
Lemma register_failure_entry_remains :
  ~ register_failure_leaves_no_entry envNoDuplicates (endpoint "a")
      (world scenarioEnd).
Proof.
  intros H.
  destruct (H readded readdedCalls (serviceOf (endpoint "a"))
              "service already registered") as [_ Hnone].
  - reflexivity.
  - vm_compute. reflexivity.
  - vm_compute. right. right. left. reflexivity.
  - vm_compute in Hnone. discriminate Hnone.
Qed.

(** ** The handlers of DELETED and MODIFIED events *)

(** C3: a DELETED event for a service that is registered and started:
    the handler logs one line and returns; it makes no call on the service
    or on the provider (no stop), and the service is still in the map. *)
Theorem deleted_event_leaves_service_registered :
  services (world afterAdd) !! "a" = Some (serviceOf (endpoint "a"))
  /\ In (CallStart (serviceOf (endpoint "a")) None) (trace (world afterAdd))
  /\ exists cfg,
       run envOk [Send (DELETED "a"); Select CaseRecv] afterAdd = Some cfg
       /\ trace (world cfg) =
          trace (world afterAdd) ++
            [Log InfoLevel "Removing service"
               [zapString "name" "a"; zapString "address" "a:8080"]]
       /\ services (world cfg) !! "a" = Some (serviceOf (endpoint "a")).
Proof.
  split; [vm_compute; reflexivity|].
  split; [vm_compute; tauto|].
  eexists. split; [vm_compute; reflexivity|].
  split; vm_compute; reflexivity.
Qed.

(** C7: the scenario ADDED(a), ADDED(b), DELETED(a), MODIFIED(b), every
    step succeeding: at the end the map holds both [a] and [b], and the
    last call made on [b] (or on anything) is its [Start]: the DELETED and
    the MODIFIED events each left one log line and nothing else. *)
Theorem scenario_keeps_a_and_never_updates_b :
  startServiceWatcher envOk false scenario emptyWorld = Some scenarioEnd
  /\ services (world scenarioEnd) !! "a" = Some (serviceOf (endpoint "a"))
  /\ services (world scenarioEnd) !! "b" = Some (serviceOf (endpoint "b"))
  /\ lifecycle (trace (world scenarioEnd)) =
     [CallWatch "default-namespace" None;
      CallCreateService (endpoint "a") (inr (serviceOf (endpoint "a")));
      CallRegister (serviceOf (endpoint "a")) None;
      CallInitialize (serviceOf (endpoint "a")) None;
      CallStart (serviceOf (endpoint "a")) None;
      CallCreateService (endpoint "b") (inr (serviceOf (endpoint "b")));
      CallRegister (serviceOf (endpoint "b")) None;
      CallInitialize (serviceOf (endpoint "b")) None;
      CallStart (serviceOf (endpoint "b")) None]
  /\ dispatched (trace (world scenarioEnd)) =
     [(OnAdded, "a", "a:8080"); (OnAdded, "b", "b:8080");
      (OnDeleted, "a", "a:8080"); (OnModified, "b", "b:8080")].
Proof. repeat split; vm_compute; reflexivity. Qed.

(** ** Opening the stream *)

(** C4 (amended): when the stream cannot be opened, [Watch] has been called
    once and is not called again, the failure is reported through
    [Logger.Fatal] with the error, no event is ever received and no
    handler runs, whatever arrives; the watcher returns if [Fatal] comes
    back, and the process ends with status 1 if [Fatal] exits, as zap's
    does. *)
Theorem open_failure_is_reported_fatal
    (env : Env) (done0 : bool) (ticks : list Tick) (w : World) (err : error)
    (cfg : Cfg) :
  watchResult env w "default-namespace" = Some err ->
  startServiceWatcher env done0 ticks w = Some cfg ->
  world cfg =
    {| services := services w;
       trace := trace w ++
         [CallWatch "default-namespace" (Some err);
          Log FatalLevel "Failed to start service watcher" [zapError err]] |}
  /\ status cfg = match fatalAction env with
                  | WriteThenFatal => ProcessExited 1
                  | WriteThenReturn => Returned
                  end.
Proof.
  intros Hw. unfold startServiceWatcher. rewrite openWatch_effect, Hw.
  intros Hrun. apply run_stopped in Hrun; cbn [status world] in *.
  - destruct Hrun as [-> ->]. split; reflexivity.
  - destruct (fatalAction env); discriminate.
Qed.

Lemma open_failure_is_reported_fatal_witness :
  world (valOf (startServiceWatcher (envWatchFails WriteThenReturn) false
                  [Send (ADDED "a"); Cancel] emptyWorld)) =
    {| services := services emptyWorld;
       trace := trace emptyWorld ++
         [CallWatch "default-namespace" (Some "registry unreachable");
          Log FatalLevel "Failed to start service watcher"
            [zapError "registry unreachable"]] |}
  /\ status (valOf (startServiceWatcher (envWatchFails WriteThenReturn) false
                      [Send (ADDED "a"); Cancel] emptyWorld)) =
     match fatalAction (envWatchFails WriteThenReturn) with
     | WriteThenFatal => ProcessExited 1
     | WriteThenReturn => Returned
     end.
Proof.
  apply (open_failure_is_reported_fatal (envWatchFails WriteThenReturn) false
           [Send (ADDED "a"); Cancel] emptyWorld "registry unreachable");
    reflexivity.
Defined.

(** C4, as worded, fails with a logger whose [Fatal] exits: the stream
    cannot be opened and the whole process ends with status 1. *)
Lemma open_failure_exits_process :
  ~ open_failure_spares_process (envWatchFails WriteThenFatal).
Proof.
  intros H.
  specialize (H false [] emptyWorld "registry unreachable"
                (valOf (startServiceWatcher (envWatchFails WriteThenFatal)
                          false [] emptyWorld))
                eq_refl eq_refl).
  vm_compute in H. discriminate H.
Qed.

(** ** Shutdown *)


Example shutdown_with_both_failures :
  Shutdown envShutdownFails emptyWorld =
  (Some "breaker busy",
   {| services := ∅;
      trace :=
        [Log InfoLevel "Shutting down Services..." [];
         CallStopAll (Some "stop timed out");
         Log ErrorLevel "Failed to stop services" [zapError "stop timed out"];
         Log InfoLevel "Shutting down Resilience..." [];
         CallResilienceShutdown (Some "breaker busy");
         Log ErrorLevel "Failed to shut down resilience"
           [zapError "breaker busy"]] |}).
Proof. reflexivity. Qed.

(** ** Cancellation *)

(** C8 (amended): the [select] proceeds with the cancellation case only
    when the context is cancelled; in that pass the watcher logs one line
    and returns, and from then on nothing is received or dispatched,
    whatever arrives on the channel: the world stays as that pass left
    it. *)
Theorem cancellation_case_ends_dispatch
    (env : Env) (cfg cfg1 cfg2 : Cfg) (after : list Tick) :
  tick env (Select CaseDone) cfg = Some cfg1 ->
  run env after cfg1 = Some cfg2 ->
  ctxDone cfg = true
  /\ status cfg2 = Returned
  /\ world cfg2 =
     {| services := services (world cfg);
        trace := trace (world cfg) ++
          [Log InfoLevel "Stopping service watcher..." []] |}.
Proof.
  cbn [tick]. unfold loopBody, ready.
  destruct (status cfg); try discriminate.
  destruct (ctxDone cfg); [|discriminate].
  intros [= <-] Hrun. apply run_stopped in Hrun; [|discriminate].
  destruct Hrun as [-> ->]. repeat split; reflexivity.
Qed.

Lemma cancellation_case_ends_dispatch_witness :
  ctxDone cancelledBusy = true
  /\ status (valOf (run envOk [Select CaseDone; Send (ADDED "b"); Close]
                      cancelledBusy)) = Returned
  /\ world (valOf (run envOk [Select CaseDone; Send (ADDED "b"); Close]
                     cancelledBusy)) =
     {| services := services (world cancelledBusy);
        trace := trace (world cancelledBusy) ++
          [Log InfoLevel "Stopping service watcher..." []] |}.
Proof.
  apply (cancellation_case_ends_dispatch envOk cancelledBusy
           (valOf (tick envOk (Select CaseDone) cancelledBusy))
           (valOf (run envOk [Select CaseDone; Send (ADDED "b"); Close]
                     cancelledBusy))
           [Send (ADDED "b"); Close]);
    reflexivity.
Defined.

(** C8, as worded, fails: the context is cancelled, then an event arrives;
    both cases of the [select] can proceed, the receive is taken, and the
    event is dispatched. *)
Lemma event_after_cancel_is_dispatched :
  ~ cancel_stops_dispatch envOk.
Proof.
  intros H.
  destruct (H [] [Send (ADDED "a"); Select CaseRecv] emptyWorld
              (valOf (startServiceWatcher envOk false
                        [Cancel; Send (ADDED "a"); Select CaseRecv]
                        emptyWorld))
              eq_refl) as [k Hk].
  change (sent []) with (@nil Event) in Hk. rewrite take_nil in Hk.
  vm_compute in Hk. discriminate Hk.
Qed.

(** ** The full trace of a run: lemmas *)

Ltac added_trace_done :=
  eexists; eexists; rewrite <- ?app_assoc;
  split; [reflexivity | constructor].

Lemma handleServiceAdded_trace (env : Env) (e : ServiceEndpoint) (w : World) :
  exists new m',
    handleServiceAdded env e w = (tt, {| services := m'; trace := trace w ++ new |})
    /\ AddedTrace e (services w) new m'.
Proof.
  unfold handleServiceAdded. run_monad.
  case_oracle createServiceResult; [added_trace_done|].
  case_oracle registerResult; [added_trace_done|].
  case_oracle initializeResult; [added_trace_done|].
  case_oracle startResult; added_trace_done.
Qed.

Lemma dispatch_trace (env : Env) (event : Event) (w : World) :
  exists new m',
    dispatch env event w = (tt, {| services := m'; trace := trace w ++ new |})
    /\ HandlerTrace event (services w) new m'.
Proof.
  unfold dispatch.
  destruct (String.eqb_spec (EventType event) "ADDED") as [Ha|Ha].
  { destruct (handleServiceAdded_trace env (EventService event) w)
      as (new & m' & Heq & Ht).
    exists new, m'. split; [assumption | apply ht_added; assumption]. }
  destruct (String.eqb_spec (EventType event) "DELETED") as [Hd|Hd].
  { rewrite handleServiceDeleted_effect. eexists _, _.
    split; [reflexivity | apply ht_deleted; assumption]. }
  destruct (String.eqb_spec (EventType event) "MODIFIED") as [Hm|Hm].
  { rewrite handleServiceModified_effect. eexists _, _.
    split; [reflexivity | apply ht_modified; assumption]. }
  exists [], (services w). rewrite app_nil_r. destruct w.
  split; [reflexivity | apply ht_ignored; assumption].
Qed.

Lemma added_trace_lifecycle (e : ServiceEndpoint) (m m' : gmap string Service)
    (t : list Call) :
  AddedTrace e m t m' -> AddedRun e m (lifecycle t) m'.
Proof. intros H. destruct H; cbn; constructor. Qed.

Lemma event_traces_blocks (m m' : gmap string Service) (evs : list Event)
    (body : list Call) :
  EventTraces m evs body m' -> AddedBlocks m evs (lifecycle body) m'.
Proof.
  induction 1 as [m | m ev t m1 evs ts m' Hh _ IH]; [constructor|].
  rewrite lifecycle_app.
  destruct Hh as [t m1 Ha Ht | Hd | Hm | Ha Hd Hm].
  - eapply blocks_added; eauto using added_trace_lifecycle.
  - cbn. apply blocks_other; [rewrite Hd; discriminate | assumption].
  - cbn. apply blocks_other; [rewrite Hm; discriminate | assumption].
  - cbn. apply blocks_other; assumption.
Qed.

Section RunShape.

Variable env : Env.

(** What the surroundings can still change once the goroutine has left the
    loop: the queue grows by what is sent; a cancelled context stays
    cancelled and a closed channel stays closed. *)
Lemma run_stopped_cfg (ticks : list Tick) (cfg cfg' : Cfg) :
  status cfg <> Running ->
  run env ticks cfg = Some cfg' ->
  chBuf cfg' = chBuf cfg ++ sent ticks
  /\ (ctxDone cfg = true -> ctxDone cfg' = true)
  /\ (chClosed cfg = true -> chClosed cfg' = true).
Proof.
  revert cfg. induction ticks as [|t ticks IH]; intros cfg Hs; cbn [run].
  { intros [= <-]. cbn. rewrite app_nil_r. auto. }
  destruct (tick env t cfg) as [cfg1|] eqn:Ht; [|discriminate].
  intros Hrun.
  destruct (tick_stopped env t cfg cfg1 Hs Ht) as [_ Hst].
  destruct (IH cfg1) as (Hb & Hd & Hc); [congruence | assumption |].
  destruct t as [| e | | c]; cbn in Ht.
  - injection Ht as <-. cbn in *. auto.
  - destruct (chClosed cfg) eqn:Hcl; [discriminate|]. injection Ht as <-.
    cbn in *. rewrite <- app_assoc in Hb. repeat split; auto; discriminate.
  - destruct (chClosed cfg) eqn:Hcl; [discriminate|]. injection Ht as <-.
    cbn in *. auto.
  - apply loopBody_running in Ht. contradiction.
Qed.

(** The whole trace of a run that starts in the loop: the traces of the
    first [k] events of the queue, one after the other, then the line the
    watcher logs when it leaves the loop, if it has. *)
Lemma run_trace_shape (ticks : list Tick) (cfg cfg' : Cfg) :
  status cfg = Running ->
  run env ticks cfg = Some cfg' ->
  exists k body tail,
    trace (world cfg') = trace (world cfg) ++ body ++ tail
    /\ EventTraces (services (world cfg)) (take k (chBuf cfg ++ sent ticks))
         body (services (world cfg'))
    /\ chBuf cfg' = drop k (chBuf cfg ++ sent ticks)
    /\ ExitTail cfg' tail.
Proof.
  revert cfg. induction ticks as [|t ticks IH]; intros cfg Hs; cbn [run].
  { intros [= <-]. exists 0, [], []. cbn. rewrite !app_nil_r.
    repeat split; [constructor | left; auto]. }
  destruct (tick env t cfg) as [cfg1|] eqn:Ht; [|discriminate].
  intros Hrun.
  destruct t as [| e | | c]; cbn in Ht.
  - injection Ht as <-. apply IH in Hrun; [|assumption]. exact Hrun.
  - destruct (chClosed cfg); [discriminate|]. injection Ht as <-.
    apply IH in Hrun; [|assumption]. cbn in *.
    rewrite <- app_assoc in Hrun. exact Hrun.
  - destruct (chClosed cfg); [discriminate|]. injection Ht as <-.
    apply IH in Hrun; [|assumption]. exact Hrun.
  - unfold loopBody in Ht. rewrite Hs in Ht.
    destruct (ready cfg c) eqn:Hr; [|discriminate].
    destruct c; cbn in Hr.
    + injection Ht as Hcfg1.
      assert (Hns : status cfg1 <> Running)
        by (rewrite <- Hcfg1; cbn; discriminate).
      destruct (run_stopped env ticks cfg1 cfg' Hns Hrun) as [Hw Hst].
      destruct (run_stopped_cfg ticks cfg1 cfg' Hns Hrun) as (Hb & Hd & _).
      subst cfg1. cbn in *. exists 0, [], [stoppingLine]. rewrite Hw. cbn.
      repeat split; [constructor | assumption |].
      right; left. auto.
    + destruct (chBuf cfg) as [|event rest] eqn:Hbuf.
      * injection Ht as Hcfg1.
        assert (Hns : status cfg1 <> Running)
          by (rewrite <- Hcfg1; cbn; discriminate).
        destruct (run_stopped env ticks cfg1 cfg' Hns Hrun) as [Hw Hst].
        destruct (run_stopped_cfg ticks cfg1 cfg' Hns Hrun) as (Hb & _ & Hc).
        subst cfg1. cbn in *. exists 0, [], [closedLine]. rewrite Hw. cbn.
        repeat split; [constructor | assumption |].
        right; right. auto.
      * destruct (dispatch_trace env event (world cfg))
          as (new & m1 & Heq & Hh).
        rewrite Heq in Ht. injection Ht as <-.
        apply IH in Hrun; [|reflexivity]. cbn in Hrun.
        destruct Hrun as (k & body & tail & Htr & Hev & Hb & Hx).
        exists (S k), (new ++ body), tail. cbn.
        repeat split; [| econstructor; eassumption | assumption | assumption].
        rewrite Htr, <- !app_assoc. reflexivity.
Qed.

End RunShape.

(** The whole trace of [startServiceWatcher]: either the stream could not
    be opened, or the stream was opened and the loop ran. *)
Lemma watcher_trace_shape
    (env : Env) (done0 : bool) (ticks : list Tick) (w : World) (cfg : Cfg) :
  startServiceWatcher env done0 ticks w = Some cfg ->
  (exists err,
      watchResult env w "default-namespace" = Some err
      /\ status cfg <> Running
      /\ services (world cfg) = services w
      /\ trace (world cfg) =
         trace w ++ [CallWatch "default-namespace" (Some err); fatalLine err])
  \/ (watchResult env w "default-namespace" = None
      /\ exists k body tail,
           trace (world cfg) =
             trace w ++ CallWatch "default-namespace" None :: body ++ tail
           /\ EventTraces (services w) (take k (sent ticks)) body
                (services (world cfg))
           /\ chBuf cfg = drop k (sent ticks)
           /\ ExitTail cfg tail).
Proof.
  unfold startServiceWatcher. rewrite openWatch_effect.
  destruct (watchResult env w "default-namespace") as [err|]; intros Hrun.
  - left. exists err. split; [reflexivity|].
    apply run_stopped in Hrun; cbn [status world] in *.
    + destruct Hrun as [-> ->]. cbn.
      repeat split; destruct (fatalAction env); discriminate.
    + destruct (fatalAction env); discriminate.
  - right. split; [reflexivity|].
    apply run_trace_shape in Hrun; [|reflexivity]. cbn in Hrun.
    destruct Hrun as (k & body & tail & Htr & Hev & Hb & Hx).
    exists k, body, tail. rewrite Htr, <- app_assoc.
    repeat split; assumption.
Qed.

Lemma added_blocks_start_guard (m m' : gmap string Service)
    (evs : list Event) (calls : list Call) :
  AddedBlocks m evs calls m' ->
  forall pre s r post,
    calls = pre ++ CallStart s r :: post ->
    exists e pre',
      pre = pre' ++ [CallCreateService e (inr s); CallRegister s None;
                     CallInitialize s None].
Proof.
  induction 1 as [m | m ev evs calls m' Hne _ IH
                 | m ev b m1 evs calls m' Ha Hrun _ IH];
    intros pre s r post Heq.
  - destruct pre; discriminate.
  - eauto.
  - apply app_eq_app in Heq. destruct Heq as [l [[Hb Hc] | [Hp Hc]]].
    + destruct l as [|x l].
      * cbn in Hc. symmetry in Hc.
        destruct (IH [] s r post Hc) as (e & pre' & Hnil).
        destruct pre'; discriminate.
      * cbn in Hc. injection Hc as <- _.
        exists (EventService ev), [].
        destruct Hrun;
          destruct pre as [|p1 [|p2 [|p3 [|p4 [|p5 pre]]]]];
          cbn in Hb; simplify_eq; reflexivity.
    + destruct (IH l s r post Hc) as (e & pre' & ->).
      exists e, (b ++ pre'). rewrite Hp, app_assoc. reflexivity.
Qed.

Lemma exit_tail_lifecycle (cfg : Cfg) (tail : list Call) :
  ExitTail cfg tail -> lifecycle tail = [] /\ Forall (fun c => isFatal c = false) tail.
Proof.
  intros [[_ ->] | [(_ & -> & _) | (_ & -> & _)]];
    split; try reflexivity; repeat constructor.
Qed.

(** ** The watcher: the calls it makes *)

(** X1: once the stream is open, the calls a run makes besides logging are
    the one [Watch] and then, for each ADDED event among the first [k]
    events sent, the steps of that event as one uninterrupted block
    (create, register, initialize, start, up to the first failure), block
    after block in the order of the events; the service map changes only
    through these blocks; the other events cause no call at all. *)
Theorem watcher_calls_are_added_blocks
    (env : Env) (done0 : bool) (ticks : list Tick) (w : World) (cfg : Cfg) :
  watchResult env w "default-namespace" = None ->
  startServiceWatcher env done0 ticks w = Some cfg ->
  exists k new calls,
    trace (world cfg) = trace w ++ new
    /\ lifecycle new = CallWatch "default-namespace" None :: calls
    /\ AddedBlocks (services w) (take k (sent ticks)) calls
         (services (world cfg))
    /\ chBuf cfg = drop k (sent ticks).
Proof.
  intros Hw Hrun.
  destruct (watcher_trace_shape env done0 ticks w cfg Hrun)
    as [(err & Hf & _) | (_ & k & body & tail & Htr & Hev & Hb & Hx)];
    [congruence|].
  exists k, (CallWatch "default-namespace" None :: body ++ tail),
    (lifecycle body).
  apply exit_tail_lifecycle in Hx. destruct Hx as [Hl _].
  repeat split; [assumption | | apply event_traces_blocks; assumption
                | assumption].
  change (CallWatch "default-namespace" None :: body ++ tail)
    with ([CallWatch "default-namespace" None] ++ body ++ tail).
  rewrite !lifecycle_app, Hl, app_nil_r. reflexivity.
Qed.

Lemma watcher_calls_are_added_blocks_witness :
  exists k new calls,
    trace (world readdEnd) = trace emptyWorld ++ new
    /\ lifecycle new = CallWatch "default-namespace" None :: calls
    /\ AddedBlocks (services emptyWorld) (take k (sent readdRun)) calls
         (services (world readdEnd))
    /\ chBuf readdEnd = drop k (sent readdRun).
Proof.
  apply (watcher_calls_are_added_blocks envNoDuplicates false readdRun
           emptyWorld readdEnd);
    vm_compute; reflexivity.
Defined.

(** X2: in every run of the watcher, a [Start] call on a service comes
    right after the successful [CreateService] that returned that service,
    its successful [Register] and its successful [Initialize]: no service
    is started that was not created, registered and initialized just
    before, by the same event. *)
Theorem start_follows_create_register_initialize
    (env : Env) (done0 : bool) (ticks : list Tick) (w : World) (cfg : Cfg)
    (new pre post : list Call) (s : Service) (r : option error) :
  startServiceWatcher env done0 ticks w = Some cfg ->
  trace (world cfg) = trace w ++ new ->
  lifecycle new = pre ++ CallStart s r :: post ->
  exists e pre',
    pre = pre' ++ [CallCreateService e (inr s); CallRegister s None;
                   CallInitialize s None].
Proof.
  intros Hrun Htr Hl.
  destruct (watcher_trace_shape env done0 ticks w cfg Hrun)
    as [(err & _ & _ & _ & Hf) | (_ & k & body & tail & Hs & Hev & _ & Hx)].
  - rewrite Htr in Hf. apply app_inv_head in Hf. subst new. cbn in Hl.
    destruct pre as [|p1 [|p2 pre]]; discriminate.
  - rewrite Htr in Hs. apply app_inv_head in Hs. subst new.
    apply exit_tail_lifecycle in Hx. destruct Hx as [Ht _].
    change (CallWatch "default-namespace" None :: body ++ tail)
      with ([CallWatch "default-namespace" None] ++ body ++ tail) in Hl.
    rewrite !lifecycle_app, Ht, app_nil_r in Hl. cbn in Hl.
    apply event_traces_blocks in Hev.
    destruct pre as [|p pre]; [discriminate|].
    injection Hl as <- Hl.
    destruct (added_blocks_start_guard _ _ _ _ Hev pre s r post Hl)
      as (e & pre' & ->).
    exists e, (CallWatch "default-namespace" None :: pre'). reflexivity.
Qed.

Lemma start_follows_create_register_initialize_witness :
  exists e pre',
    [CallWatch "default-namespace" None;
     CallCreateService (endpoint "a") (inr (serviceOf (endpoint "a")));
     CallRegister (serviceOf (endpoint "a")) None;
     CallInitialize (serviceOf (endpoint "a")) None] =
    pre' ++ [CallCreateService e (inr (serviceOf (endpoint "a")));
             CallRegister (serviceOf (endpoint "a")) None;
             CallInitialize (serviceOf (endpoint "a")) None].
Proof.
  apply (start_follows_create_register_initialize envNoDuplicates false
           readdRun emptyWorld readdEnd readdNew
           [CallWatch "default-namespace" None;
            CallCreateService (endpoint "a") (inr (serviceOf (endpoint "a")));
            CallRegister (serviceOf (endpoint "a")) None;
            CallInitialize (serviceOf (endpoint "a")) None]
           [CallCreateService (endpoint "a") (inr (serviceOf (endpoint "a")));
            CallRegister (serviceOf (endpoint "a"))
              (Some "service already registered")]
           (serviceOf (endpoint "a")) None);
    vm_compute; reflexivity.
Defined.

(** ** The handler of ADDED events: what it logs *)

(** X4: a step of [handleServiceAdded] that fails is never silent: the
    handler's last entry is the Error line for that step, carrying the
    name (of the endpoint when the creation failed, of the service
    afterwards) and the error returned, and it is the only Error line of
    the call. *)
Theorem added_failure_is_logged
    (env : Env) (e : ServiceEndpoint) (w w' : World) (new : list Call)
    (c l : Call) :
  handleServiceAdded env e w = (tt, w') ->
  trace w' = trace w ++ new ->
  In c new ->
  failureLog e c = Some l ->
  last new = Some l /\ List.filter isErrorLine new = [l].
Proof.
  intros Hrun Htr Hin Hf.
  destruct (handleServiceAdded_trace env e w) as (new0 & m' & Heq & Ht).
  rewrite Heq in Hrun. injection Hrun as <-. cbn in Htr.
  apply app_inv_head in Htr. subst new0.
  destruct Ht; cbn in Hin;
    repeat (destruct Hin as [<-|Hin]; try contradiction);
    cbn in Hf; try discriminate Hf;
    injection Hf as <-; split; reflexivity.
Qed.

Lemma added_failure_is_logged_witness :
  last refusedCalls =
    Some (failureLine "Failed to register service" "a" "registry full")
  /\ List.filter isErrorLine refusedCalls =
     [failureLine "Failed to register service" "a" "registry full"].
Proof.
  apply (added_failure_is_logged envRegisterFails (endpoint "a") emptyWorld
           refused refusedCalls
           (CallRegister (serviceOf (endpoint "a")) (Some "registry full"))).
  - reflexivity.
  - vm_compute. reflexivity.
  - vm_compute. right. right. left. reflexivity.
  - reflexivity.
Defined.

(** X5: when no step fails, [handleServiceAdded] has made all four steps
    on the service that [CreateService] returned, has logged nothing but
    its opening Info line, and has left the service in the map under its
    name. *)
Theorem added_without_failure_runs_all_steps
    (env : Env) (e : ServiceEndpoint) (w w' : World) (new : list Call) :
  handleServiceAdded env e w = (tt, w') ->
  trace w' = trace w ++ new ->
  (forall c, In c new -> failureLog e c = None) ->
  exists s,
    new = [addingLine e; CallCreateService e (inr s); CallRegister s None;
           CallInitialize s None; CallStart s None]
    /\ services w' = <[ServiceName s := s]> (services w).
Proof.
  intros Hrun Htr Hok.
  destruct (handleServiceAdded_trace env e w) as (new0 & m' & Heq & Ht).
  rewrite Heq in Hrun. injection Hrun as <-. cbn in Htr.
  apply app_inv_head in Htr. subst new0. cbn [services].
  destruct Ht as [err | s err | s err | s err | s].
  - specialize (Hok (CallCreateService e (inl err))).
    cbn in Hok. discriminate Hok. tauto.
  - specialize (Hok (CallRegister s (Some err))).
    cbn in Hok. discriminate Hok. tauto.
  - specialize (Hok (CallInitialize s (Some err))).
    cbn in Hok. discriminate Hok. tauto.
  - specialize (Hok (CallStart s (Some err))).
    cbn in Hok. discriminate Hok. tauto.
  - exists s. split; reflexivity.
Qed.

Lemma added_without_failure_runs_all_steps_witness :
  exists s,
    addedCalls =
      [addingLine (endpoint "a"); CallCreateService (endpoint "a") (inr s);
       CallRegister s None; CallInitialize s None; CallStart s None]
    /\ services added = <[ServiceName s := s]> (services emptyWorld).
Proof.
  apply (added_without_failure_runs_all_steps envOk (endpoint "a") emptyWorld
           added addedCalls).
  - reflexivity.
  - vm_compute. reflexivity.
  - intros c Hin. vm_compute in Hin.
    repeat (destruct Hin as [<-|Hin]; [reflexivity|]). contradiction.
Defined.

(** ** The watcher: how it returns *)

(** X7: the watcher never returns without saying why: when it has
    returned, the last entry of the trace is the line for a cancelled
    context (and the context is cancelled), or the warning for a closed
    channel (and the channel is closed), or the Fatal line for a stream
    that could not be opened (with a logger whose [Fatal] comes back). *)
Theorem returned_watcher_logged_why
    (env : Env) (done0 : bool) (ticks : list Tick) (w : World) (cfg : Cfg) :
  startServiceWatcher env done0 ticks w = Some cfg ->
  status cfg = Returned ->
  (last (trace (world cfg)) = Some stoppingLine /\ ctxDone cfg = true)
  \/ (last (trace (world cfg)) = Some closedLine /\ chClosed cfg = true)
  \/ (exists err,
        last (trace (world cfg)) = Some (fatalLine err)
        /\ watchResult env w "default-namespace" = Some err).
Proof.
  intros Hrun Hst.
  destruct (watcher_trace_shape env done0 ticks w cfg Hrun)
    as [(err & Hf & _ & _ & Htr) | (_ & k & body & tail & Htr & _ & _ & Hx)].
  - right; right. exists err. split; [|assumption].
    rewrite Htr.
    change [CallWatch "default-namespace" (Some err); fatalLine err]
      with ([CallWatch "default-namespace" (Some err)] ++ [fatalLine err]).
    rewrite app_assoc. apply last_snoc.
  - change (CallWatch "default-namespace" None :: body ++ tail)
      with ([CallWatch "default-namespace" None] ++ body ++ tail) in Htr.
    rewrite !app_assoc in Htr.
    destruct Hx as [[Hr _] | [(_ & -> & Hd) | (_ & -> & Hc)]].
    + congruence.
    + left. rewrite Htr. split; [apply last_snoc | assumption].
    + right; left. rewrite Htr. split; [apply last_snoc | assumption].
Qed.

Lemma returned_watcher_logged_why_witness :
  (last (trace (world readdEnd)) = Some stoppingLine
   /\ ctxDone readdEnd = true)
  \/ (last (trace (world readdEnd)) = Some closedLine
      /\ chClosed readdEnd = true)
  \/ (exists err,
        last (trace (world readdEnd)) = Some (fatalLine err)
        /\ watchResult envNoDuplicates emptyWorld "default-namespace"
           = Some err).
Proof.
  apply (returned_watcher_logged_why envNoDuplicates false readdRun
           emptyWorld readdEnd);
    vm_compute; reflexivity.
Defined.

(** ** The program: lemmas *)

Ltac run_program :=
  cbv beta iota zeta delta
    [main NewCore initializeObservability initializeAndStartServices
     setupSignalHandler NewResilienceService FatalP InfoP WarnP ErrorP
     bindP retP emitP step exit panic waitDone].

(** Case analysis on the next answer the program waits for. *)
Ltac case_program :=
  match goal with
  | |- context [newObserverResult ?e ?t] =>
      destruct (newObserverResult e t) eqn:?
  | |- context [loadCoreConfigResult ?e ?t] =>
      destruct (loadCoreConfigResult e t) eqn:?
  | |- context [newServicesResult ?e ?t] =>
      destruct (newServicesResult e t) eqn:?
  | |- context [initializeAllResult ?e ?t] =>
      destruct (initializeAllResult e t) eqn:?
  | |- context [startAllResult ?e ?t] =>
      destruct (startAllResult e t) eqn:?
  | |- context [discoverResult ?e ?t ?n] =>
      destruct (discoverResult e t n) eqn:?
  | |- context [loggerFatal ?e] =>
      destruct (loggerFatal e) eqn:?
  end; cbv beta iota zeta.

(** From [run = (out, tr')] and [tr' = tr ++ new] to [out] and [new]. *)
Ltac name_trace :=
  let Hout := fresh "Hout" in
  let Htr := fresh "Htr" in
  intros Hout Htr; injection Hout as <- <-;
  rewrite <- ?app_assoc in Htr; apply app_inv_head in Htr; subst.

Lemma logDiscovered_effect (eps : list ServiceEndpoint) (tr : list Step) :
  logDiscovered eps tr = (Done tt, tr ++ map discoveredLine eps).
Proof.
  revert tr. induction eps as [|e eps IH]; intros tr; cbn [logDiscovered map].
  - unfold retP. rewrite app_nil_r. reflexivity.
  - unfold bindP, emitP. rewrite IH, <- app_assoc. reflexivity.
Qed.

(** ** Bulk initialize and start *)

(** X8: in [initializeAndStartServices] the [Fatal] that reports a failed
    [InitializeAll] is not followed by a [return]: [StartAll] is skipped
    only because the logger ends the process (status 1, the Fatal line
    being the last entry); with a logger whose [Fatal] comes back,
    [StartAll] is called on the services that failed to initialize. *)
Theorem failed_initialize_all_and_start_all
    (env : ProgramEnv) (tr tr' new : list Step) (out : Outcome unit)
    (err : error) :
  initializeAndStartServices env tr = (out, tr') ->
  tr' = tr ++ new ->
  In (CallInitializeAll (Some err)) new ->
  match loggerFatal env with
  | WriteThenFatal =>
      out = Exit 1
      /\ last new =
         Some (CoreStep (Log FatalLevel "Failed to initialize services-library"
                           [zapError err]))
      /\ List.filter isStartAll new = []
  | WriteThenReturn =>
      exists r, List.filter isStartAll new = [CallStartAll r]
  end.
Proof.
  run_program. repeat case_program; name_trace;
    cbn; intros Hin;
    repeat (destruct Hin as [Hin|Hin]; try discriminate Hin);
    try contradiction;
    try (injection Hin as <-; repeat split; reflexivity);
    eexists; reflexivity.
Qed.

Lemma failed_initialize_all_and_start_all_witness :
  exists r,
    List.filter isStartAll
      (snd (initializeAndStartServices
              (programInitializeAllFails WriteThenReturn) []))
    = [CallStartAll r].
Proof.
  apply (failed_initialize_all_and_start_all
           (programInitializeAllFails WriteThenReturn) []
           (snd (initializeAndStartServices
                   (programInitializeAllFails WriteThenReturn) []))
           (snd (initializeAndStartServices
                   (programInitializeAllFails WriteThenReturn) []))
           (fst (initializeAndStartServices
                   (programInitializeAllFails WriteThenReturn) []))
           "dependency missing").
  - reflexivity.
  - reflexivity.
  - vm_compute. right. left. reflexivity.
Defined.

(** Unfold the program down to its answers, one case per combination. *)
Ltac all_cases :=
  run_program;
  repeat (case_program
          || (rewrite logDiscovered_effect; cbv beta iota zeta)).

(** Go through a membership hypothesis on an explicit trace. *)
Ltac scan_trace H :=
  repeat
    match type of H with
    | In _ (_ :: _) => destruct H as [H|H]; [try discriminate H|]
    | In _ (_ ++ _) => apply in_app_or in H; destruct H as [H|H]
    | In _ (map _ _) =>
        apply in_map_iff in H; destruct H as (? & H & _); try discriminate H
    | In _ [] => contradiction H
    end.

(** ** Building the program *)

(** X9: [NewCore] stops at the first constructor that fails.  When the
    observer cannot be built the process exits with status 1 through the
    standard logger; when the configuration cannot be loaded the error is
    returned as it is, with no log line and with neither the resilience
    service nor the services provider built; when the services provider
    cannot be built the error is logged at Error level and returned.  In
    each case the entry named is the last one. *)
Theorem NewCore_stops_at_first_failure
    (env : ProgramEnv) (tr tr' new : list Step)
    (out o : Outcome (error + Core)) (c l : Step) :
  NewCore env tr = (out, tr') ->
  tr' = tr ++ new ->
  In c new ->
  newCoreFailure c = Some (o, l) ->
  out = o /\ last new = Some l.
Proof.
  all_cases; name_trace; cbn; intros Hin Hf;
    repeat (destruct Hin as [<-|Hin]; try contradiction);
    cbn in Hf; try discriminate Hf;
    injection Hf as <- <-; split; reflexivity.
Qed.

Lemma NewCore_stops_at_first_failure_witness :
  fst (NewCore programServicesFail []) = Done (inl "no registry")
  /\ last (snd (NewCore programServicesFail [])) =
     Some (CoreStep (Log ErrorLevel "Failed to initialize services"
                       [zapError "no registry"])).
Proof.
  apply (NewCore_stops_at_first_failure programServicesFail []
           (snd (NewCore programServicesFail []))
           (snd (NewCore programServicesFail []))
           (fst (NewCore programServicesFail []))
           (Done (inl "no registry"))
           (CallNewServices (Some "no registry"))).
  - reflexivity.
  - reflexivity.
  - vm_compute. do 4 right. left. reflexivity.
  - reflexivity.
Defined.

(** ** [main] *)

(** X10: when a constructor fails, [main] ends at once, by exit status 1
    (observer) or by the panic "Failed to create core-service"
    (configuration, services provider), and has made no call on the
    services provider: no [InitializeAll], no [StartAll], no [Discover]. *)
Theorem construction_failure_ends_main
    (env : ProgramEnv) (signal : bool) (tr tr' new : list Step)
    (out o : Outcome unit) (c : Step) :
  main env signal tr = (out, tr') ->
  tr' = tr ++ new ->
  In c new ->
  constructionFailure c = Some o ->
  out = o /\ List.filter onServices new = [].
Proof.
  destruct signal; all_cases; name_trace; intros Hin Hf;
    scan_trace Hin; subst c; cbv [discoveredLine] in Hf; cbn in Hf;
    try discriminate Hf;
    injection Hf as <-; split; reflexivity.
Qed.

Lemma construction_failure_ends_main_witness :
  fst (main programConfigFails true []) = Panic "Failed to create core-service"
  /\ List.filter onServices (snd (main programConfigFails true [])) = [].
Proof.
  apply (construction_failure_ends_main programConfigFails true []
           (snd (main programConfigFails true []))
           (snd (main programConfigFails true []))
           (fst (main programConfigFails true []))
           (Panic "Failed to create core-service")
           (CallLoadCoreConfig (inl "no config file"))).
  - reflexivity.
  - reflexivity.
  - vm_compute. do 3 right. left. reflexivity.
  - reflexivity.
Defined.

(** X11: when [Discover] fails, [main] returns at once: the failed call
    is the last entry of the trace (the error is not logged), and [main]
    does not wait for a signal: it returns even if none ever comes. *)
Theorem discover_failure_ends_main_silently
    (env : ProgramEnv) (signal : bool) (tr tr' new : list Step)
    (out : Outcome unit) (err : error) :
  main env signal tr = (out, tr') ->
  tr' = tr ++ new ->
  In (CallDiscover "goletan" (inl err)) new ->
  out = Done tt /\ last new = Some (CallDiscover "goletan" (inl err)).
Proof.
  destruct signal; all_cases; name_trace; intros Hin;
    scan_trace Hin; injection Hin as <-; split; reflexivity.
Qed.

Lemma discover_failure_ends_main_silently_witness :
  fst (main programDiscoverFails false []) = Done tt
  /\ last (snd (main programDiscoverFails false [])) =
     Some (CallDiscover "goletan" (inl "registry unreachable")).
Proof.
  apply (discover_failure_ends_main_silently programDiscoverFails false []
           (snd (main programDiscoverFails false []))
           (snd (main programDiscoverFails false []))
           (fst (main programDiscoverFails false []))
           "registry unreachable").
  - reflexivity.
  - reflexivity.
  - vm_compute. do 10 right. left. reflexivity.
Defined.

(** X12: when [Discover] succeeds, [main] logs one line per endpoint
    returned, in the order returned, then the line that it is running,
    and waits: with no signal it never gets further; with a signal it logs
    that it is shutting down and returns. *)
Theorem main_logs_endpoints_then_waits
    (env : ProgramEnv) (signal : bool) (tr tr' new : list Step)
    (out : Outcome unit) (eps : list ServiceEndpoint) :
  main env signal tr = (out, tr') ->
  tr' = tr ++ new ->
  In (CallDiscover "goletan" (inr eps)) new ->
  afterDiscover new =
    map discoveredLine eps ++ [runningLine]
    ++ (if signal then [shuttingDownLine] else [])
  /\ out = (if signal then Done tt else Blocked).
Proof.
  destruct signal; all_cases; name_trace; intros Hin;
    scan_trace Hin; injection Hin as <-;
    rewrite ?app_nil_r; split; reflexivity.
Qed.

Lemma main_logs_endpoints_then_waits_witness :
  afterDiscover (snd (main (programOk [endpoint "a"; endpoint "b"]) false [])) =
    map discoveredLine [endpoint "a"; endpoint "b"] ++ [runningLine]
    ++ (if false then [shuttingDownLine] else [])
  /\ fst (main (programOk [endpoint "a"; endpoint "b"]) false []) =
     (if false then Done tt else Blocked).
Proof.
  apply (main_logs_endpoints_then_waits
           (programOk [endpoint "a"; endpoint "b"]) false []
           (snd (main (programOk [endpoint "a"; endpoint "b"]) false []))
           (snd (main (programOk [endpoint "a"; endpoint "b"]) false []))
           (fst (main (programOk [endpoint "a"; endpoint "b"]) false []))
           [endpoint "a"; endpoint "b"]).
  - reflexivity.
  - reflexivity.
  - vm_compute. do 10 right. left. reflexivity.
Defined.

Lemma discovered_lines_are_logs (eps : list ServiceEndpoint) :
  List.filter isCoreCall (map discoveredLine eps) = [].
Proof. induction eps as [|e eps IH]; [reflexivity | exact IH]. Qed.

(** X13: [main] makes none of the calls that only the methods of [Core]
    make: no [Watch], no step of a handler, no [StopAll], no shutdown of
    the resilience provider.  Whatever the answers it gets and whether or
    not a signal comes, the program neither starts the service watcher nor
    runs [Shutdown]. *)
Theorem main_never_watches_nor_shuts_down
    (env : ProgramEnv) (signal : bool) (tr tr' new : list Step)
    (out : Outcome unit) :
  main env signal tr = (out, tr') ->
  tr' = tr ++ new ->
  List.filter isCoreCall new = [].
Proof.
  destruct signal; all_cases; name_trace;
    rewrite ?List.filter_app, ?discovered_lines_are_logs; reflexivity.
Qed.

Lemma main_never_watches_nor_shuts_down_witness :
  List.filter isCoreCall
    (snd (main (programOk [endpoint "a"; endpoint "b"]) true [])) = [].
Proof.
  apply (main_never_watches_nor_shuts_down
           (programOk [endpoint "a"; endpoint "b"]) true []
           (snd (main (programOk [endpoint "a"; endpoint "b"]) true []))
           (snd (main (programOk [endpoint "a"; endpoint "b"]) true []))
           (fst (main (programOk [endpoint "a"; endpoint "b"]) true [])));
    reflexivity.
Defined.

(** ** The watcher: every receiving pass counts *)

Section ExactOrder.

Variable env : Env.

(** Outside the loop the [select] is never reached. *)
Lemma run_stopped_receives (ticks : list Tick) (cfg cfg' : Cfg) :
  status cfg <> Running ->
  run env ticks cfg = Some cfg' ->
  receives ticks = 0.
Proof.
  revert cfg. induction ticks as [|t ticks IH]; intros cfg Hs; cbn [run].
  { reflexivity. }
  destruct (tick env t cfg) as [cfg1|] eqn:Ht; [|discriminate].
  intros Hrun.
  destruct (tick_stopped env t cfg cfg1 Hs Ht) as [_ Hst].
  assert (Hrec : receives ticks = 0) by (apply (IH cfg1); congruence).
  destruct t as [| e | | c]; try exact Hrec.
  cbn in Ht. apply loopBody_running in Ht. contradiction.
Qed.

(** The order invariant with the passes counted: the [k] events
    dispatched are the first [k] of the queue, they are there to be taken,
    and every receiving pass of the run took exactly one of them, but for
    the one pass, the last, that may have found the channel closed. *)
Lemma run_in_order_exact (ticks : list Tick) (cfg cfg' : Cfg) :
  status cfg = Running ->
  run env ticks cfg = Some cfg' ->
  exists k,
    dispatched (trace (world cfg')) =
      dispatched (trace (world cfg))
      ++ omap handlerFor (take k (chBuf cfg ++ sent ticks))
    /\ chBuf cfg' = drop k (chBuf cfg ++ sent ticks)
    /\ k <= length (chBuf cfg ++ sent ticks)
    /\ (receives ticks = k
        \/ (receives ticks = S k
            /\ status cfg' = Returned
            /\ last (trace (world cfg')) = Some closedLine)).
Proof.
  revert cfg. induction ticks as [|t ticks IH]; intros cfg Hs; cbn [run].
  { intros [= <-]. exists 0. cbn. rewrite !app_nil_r.
    repeat split; [lia | left; reflexivity]. }
  destruct (tick env t cfg) as [cfg1|] eqn:Ht; [|discriminate].
  intros Hrun.
  destruct t as [| e | | c]; cbn in Ht.
  - injection Ht as <-. apply IH in Hrun; [|assumption]. exact Hrun.
  - destruct (chClosed cfg); [discriminate|]. injection Ht as <-.
    apply IH in Hrun; [|assumption]. cbn in *.
    rewrite <- app_assoc in Hrun. exact Hrun.
  - destruct (chClosed cfg); [discriminate|]. injection Ht as <-.
    apply IH in Hrun; [|assumption]. exact Hrun.
  - unfold loopBody in Ht. rewrite Hs in Ht.
    destruct (ready cfg c) eqn:Hr; [|discriminate].
    destruct c; cbn in Hr.
    + injection Ht as Hcfg1.
      assert (Hns : status cfg1 <> Running)
        by (rewrite <- Hcfg1; cbn; discriminate).
      destruct (run_stopped env ticks cfg1 cfg' Hns Hrun) as [Hw _].
      destruct (run_stopped_cfg env ticks cfg1 cfg' Hns Hrun) as (Hb & _).
      pose proof (run_stopped_receives ticks cfg1 cfg' Hns Hrun) as Hrec.
      subst cfg1. cbn in *. exists 0. rewrite Hw. cbn.
      rewrite dispatched_app. cbn. rewrite !app_nil_r.
      repeat split; [assumption | lia | left; exact Hrec].
    + destruct (chBuf cfg) as [|event rest] eqn:Hbuf.
      * injection Ht as Hcfg1.
        assert (Hns : status cfg1 <> Running)
          by (rewrite <- Hcfg1; cbn; discriminate).
        destruct (run_stopped env ticks cfg1 cfg' Hns Hrun) as [Hw Hst].
        destruct (run_stopped_cfg env ticks cfg1 cfg' Hns Hrun) as (Hb & _).
        pose proof (run_stopped_receives ticks cfg1 cfg' Hns Hrun) as Hrec.
        subst cfg1. cbn in *. exists 0. rewrite Hw. cbn.
        rewrite dispatched_app. cbn. rewrite !app_nil_r.
        repeat split; [assumption | lia |].
        right. unfold receives in *. cbn. rewrite Hrec.
        repeat split; [assumption | apply last_snoc].
      * destruct (dispatch_effect env event (world cfg))
          as (new & m' & Heq & Hnew).
        rewrite Heq in Ht. injection Ht as <-.
        apply IH in Hrun; [|reflexivity]. cbn in Hrun.
        destruct Hrun as (k & Hd & Hb & Hk & Hrec).
        exists (S k). cbn in Hd, Hb, Hk |- *.
        repeat split; [| assumption | apply le_n_S; exact Hk |].
        -- rewrite Hd, dispatched_app, Hnew, <- app_assoc. cbn.
           destruct (handlerFor event); reflexivity.
        -- unfold receives in *. cbn.
           destruct Hrec as [Hrec | (Hrec & Hst & Hl)];
             [left | right; repeat split; try assumption]; lia.
Qed.

End ExactOrder.

(** C1: the handlers are called for the events of the stream in the order
    the stream delivered them, one event per pass, none reordered and none
    skipped: at any point of any run of the watcher, with [k] the number
    of receiving passes the loop has made (not counting the one last pass
    that found the channel closed and ended the loop), [k] events were
    there to be received, the handler calls made so far are exactly the
    calls for the first [k] events sent on the channel, in that order (one
    call per event of type ADDED, DELETED or MODIFIED), and the events
    after the first [k] are still waiting on the channel, in order. *)
Theorem watcher_dispatches_in_arrival_order
    (env : Env) (done0 : bool) (ticks : list Tick) (w : World) (cfg : Cfg) :
  startServiceWatcher env done0 ticks w = Some cfg ->
  exists k,
    dispatched (trace (world cfg)) =
      dispatched (trace w) ++ omap handlerFor (take k (sent ticks))
    /\ chBuf cfg = drop k (sent ticks)
    /\ k <= length (sent ticks)
    /\ (receives ticks = k
        \/ (receives ticks = S k
            /\ status cfg = Returned
            /\ last (trace (world cfg)) = Some closedLine)).
Proof.
  unfold startServiceWatcher.
  pose proof (openWatch_dispatched env w) as Hopen.
  destruct (openWatch env w) as [st w1] eqn:Ho. cbn in Hopen.
  intros Hrun.
  destruct st as [| | code].
  - apply run_in_order_exact in Hrun; [|reflexivity]. cbn in Hrun.
    destruct Hrun as (k & Hd & Hb & Hk & Hrec). exists k.
    rewrite Hd, Hopen. repeat split; assumption.
  - exists 0.
    match type of Hrun with
    | run _ _ ?c = _ =>
        assert (Hns : status c <> Running) by (cbn; discriminate);
        destruct (run_stopped env ticks c cfg Hns Hrun) as [Hw _];
        destruct (run_stopped_cfg env ticks c cfg Hns Hrun) as (Hb & _);
        pose proof (run_stopped_receives env ticks c cfg Hns Hrun) as Hrec
    end.
    cbn in *. rewrite Hw, Hopen, app_nil_r.
    repeat split; [assumption | lia | left; exact Hrec].
  - exists 0.
    match type of Hrun with
    | run _ _ ?c = _ =>
        assert (Hns : status c <> Running) by (cbn; discriminate);
        destruct (run_stopped env ticks c cfg Hns Hrun) as [Hw _];
        destruct (run_stopped_cfg env ticks c cfg Hns Hrun) as (Hb & _);
        pose proof (run_stopped_receives env ticks c cfg Hns Hrun) as Hrec
    end.
    cbn in *. rewrite Hw, Hopen, app_nil_r.
    repeat split; [assumption | lia | left; exact Hrec].
Qed.

Lemma watcher_dispatches_in_arrival_order_witness :
  exists k,
    dispatched (trace (world scenarioEnd)) =
      dispatched (trace emptyWorld) ++ omap handlerFor (take k (sent scenario))
    /\ chBuf scenarioEnd = drop k (sent scenario)
    /\ k <= length (sent scenario)
    /\ (receives scenario = k
        \/ (receives scenario = S k
            /\ status scenarioEnd = Returned
            /\ last (trace (world scenarioEnd)) = Some closedLine)).
Proof.
  apply (watcher_dispatches_in_arrival_order envOk false scenario emptyWorld).
  vm_compute. reflexivity.
Defined.

(** ** The watcher: a closed channel *)

(** On a closed channel, with no cancellation, passes can only receive:
    one pass per event still waiting, each dispatching its event, and one
    more that finds the channel closed, logs the warning and returns. *)
Lemma closed_channel_drain
    (env : Env) (evs : list Event) (cfg : Cfg) :
  status cfg = Running ->
  chClosed cfg = true ->
  chBuf cfg = evs ->
  exists cfg' body,
    run env (replicate (S (length evs)) (Select CaseRecv)) cfg = Some cfg'
    /\ status cfg' = Returned
    /\ ctxDone cfg' = ctxDone cfg
    /\ chBuf cfg' = []
    /\ trace (world cfg') = trace (world cfg) ++ body ++ [closedLine]
    /\ EventTraces (services (world cfg)) evs body (services (world cfg')).
Proof.
  revert cfg. induction evs as [|event rest IH]; intros cfg Hs Hc Hb.
  - cbn [length replicate run tick]. unfold loopBody, ready.
    rewrite Hs, Hb, Hc. cbn.
    eexists _, []. cbn. repeat split. constructor.
  - change (replicate (S (length (event :: rest))) (Select CaseRecv))
      with (Select CaseRecv :: replicate (S (length rest)) (Select CaseRecv)).
    cbn [run tick]. unfold loopBody, ready.
    rewrite Hs, Hb.
    destruct (dispatch_trace env event (world cfg)) as (new & m1 & Heq & Hh).
    rewrite Heq. cbv beta iota zeta.
    match goal with
    | |- context [run env _ ?c] =>
        destruct (IH c) as (cfg' & body & Hrun & Hst & Hd & Hbuf & Htr & Hev);
        [reflexivity | exact Hc | reflexivity |]
    end.
    exists cfg', (new ++ body). cbn in *.
    repeat split; try assumption.
    + rewrite Htr, <- !app_assoc. reflexivity.
    + econstructor; eassumption.
Qed.

(** C9 (amended): when the channel is closed and the context has not been
    cancelled, the [select] cannot proceed with the cancellation case; the
    watcher receives and dispatches the events still waiting, in order,
    then finds the channel closed, logs one warning, its last entry, and
    returns.  That last pass leaves the service map as it found it: with
    no event waiting when the channel is closed, the watcher logs the
    warning and returns with the service map and the rest of the trace
    untouched. *)
Theorem closed_channel_drains_then_ends (env : Env) (cfg : Cfg) :
  status cfg = Running ->
  ctxDone cfg = false ->
  chClosed cfg = true ->
  tick env (Select CaseDone) cfg = None
  /\ exists cfg' body,
       run env (replicate (S (length (chBuf cfg))) (Select CaseRecv)) cfg
       = Some cfg'
       /\ status cfg' = Returned
       /\ ctxDone cfg' = false
       /\ trace (world cfg') = trace (world cfg) ++ body ++ [closedLine]
       /\ EventTraces (services (world cfg)) (chBuf cfg) body
            (services (world cfg'))
       /\ (chBuf cfg = [] ->
           world cfg' =
           {| services := services (world cfg);
              trace := trace (world cfg) ++ [closedLine] |}).
Proof.
  intros Hs Hd Hc. split.
  { cbn [tick]. unfold loopBody, ready. rewrite Hs, Hd. reflexivity. }
  destruct (closed_channel_drain env (chBuf cfg) cfg Hs Hc eq_refl)
    as (cfg' & body & Hrun & Hst & Hdone & _ & Htr & Hev).
  exists cfg', body. repeat split; try assumption; [congruence|].
  intros Hnil. rewrite Hnil in Hev. inversion Hev; subst.
  destruct (world cfg') as [m' tr']. cbn in *. congruence.
Qed.

Lemma closed_channel_drains_then_ends_witness :
  tick envOk (Select CaseDone) closedBusy = None
  /\ exists cfg' body,
       run envOk (replicate (S (length (chBuf closedBusy))) (Select CaseRecv))
         closedBusy
       = Some cfg'
       /\ status cfg' = Returned
       /\ ctxDone cfg' = false
       /\ trace (world cfg') =
          trace (world closedBusy) ++ body ++ [closedLine]
       /\ EventTraces (services (world closedBusy)) (chBuf closedBusy) body
            (services (world cfg'))
       /\ (chBuf closedBusy = [] ->
           world cfg' =
           {| services := services (world closedBusy);
              trace := trace (world closedBusy) ++ [closedLine] |}).
Proof.
  apply (closed_channel_drains_then_ends envOk closedBusy); reflexivity.
Defined.

(** C9, as worded, fails when an event is still waiting on the channel
    that is closed: ADDED(a) is sent, the channel is closed with the
    service map empty, the watcher receives and handles the event, then
    finds the channel closed and returns, with [a] in the map. *)
Lemma closed_channel_map_changes_after_close :
  ~ closure_leaves_map envOk.
Proof.
  intros H.
  destruct (H [Send (ADDED "a")] [Select CaseRecv; Select CaseRecv]
              emptyWorld
              (valOf (startServiceWatcher envOk false
                        [Send (ADDED "a"); Close] emptyWorld))
              (valOf (startServiceWatcher envOk false
                        [Send (ADDED "a"); Close;
                         Select CaseRecv; Select CaseRecv] emptyWorld))
              eq_refl eq_refl eq_refl eq_refl) as [_ Hmap].
  apply (f_equal (fun m => m !! "a")) in Hmap.
  vm_compute in Hmap. discriminate Hmap.
Qed.
